(** * abs-autoconverter: conversion rule engine and bounded dispatch queue

    A shallow embedding of [src/conversionUtils.ts], [src/config.ts]
    (the excluded-codec list) and of the dispatch part of
    [src/socketClient.ts], with the properties of the specification
    stated and settled against it.

    Conventions of the embedding.
    - A JavaScript string is a [string]: a sequence of code units, one
      [ascii] per unit, so the code units 0..255 (ASCII and Latin-1).
    - A JavaScript number that the program uses as a bit rate, a channel
      count or a counter is a [Z]; [NaN], which only [parseInt] produces
      here, is [None]. The numbers of the program are doubles: the model
      is theirs on the safe integers, and the statements that depend on
      that say so ([safe_integer]).
    - [undefined] is [None] of an option type.
    - An exception is the [Throw] case of [result]. *)

From Stdlib Require Import String Ascii ZArith List Bool Lia.
From Stdlib Require Import DecimalString DecimalFacts DecimalPos DecimalN DecimalZ.
From stdpp Require Import base option list.
Import ListNotations.

Open Scope string_scope.
Open Scope Z_scope.

(** ** JavaScript string primitives *)

Module Js.

(** Code unit of a character. *)
Definition code (c : ascii) : N := N_of_ascii c.

Definition in_range (lo hi : N) (c : ascii) : bool :=
  ((lo <=? code c) && (code c <=? hi))%N.

(** [String.prototype.toLowerCase] on one code unit: A-Z, and in the
    Latin-1 block U+00C0..U+00DE without U+00D7. *)
Definition lower_char (c : ascii) : ascii :=
  if in_range 65 90 c then ascii_of_N (code c + 32)
  else if in_range 192 214 c || in_range 216 222 c
       then ascii_of_N (code c + 32)
       else c.

Fixpoint toLowerCase (s : string) : string :=
  match s with
  | EmptyString => EmptyString
  | String c r => String (lower_char c) (toLowerCase r)
  end.

(** WhiteSpace and LineTerminator code units: TAB, LF, VT, FF, CR, SP,
    NBSP. *)
Definition is_space (c : ascii) : bool :=
  in_range 9 13 c || (code c =? 32)%N || (code c =? 160)%N.

Fixpoint trimStart (s : string) : string :=
  match s with
  | EmptyString => EmptyString
  | String c r => if is_space c then trimStart r else s
  end.

(** [trimEnd] keeps a character when it is not white space or when
    something remains after it. *)
Fixpoint trimEnd (s : string) : string :=
  match s with
  | EmptyString => EmptyString
  | String c r =>
      match trimEnd r with
      | EmptyString => if is_space c then EmptyString else String c EmptyString
      | r' => String c r'
      end
  end.

Definition trim (s : string) : string := trimEnd (trimStart s).

(** [s.split(sep)] for a one-character separator never returns an empty
    array: [split_at] gives element 0 and the elements after it. *)
Fixpoint split_at (sep : ascii) (s : string) : string * list string :=
  match s with
  | EmptyString => (EmptyString, [])
  | String c r =>
      let (h, t) := split_at sep r in
      if Ascii.eqb c sep then (EmptyString, h :: t) else (String c h, t)
  end.

Definition split (sep : ascii) (s : string) : list string :=
  let (h, t) := split_at sep s in h :: t.

(** Truthiness of a string, and of a string that may be [undefined]. *)
Definition truthy (s : string) : bool := negb (String.eqb s EmptyString).

Definition truthy_opt (o : option string) : bool :=
  match o with Some s => truthy s | None => false end.

(** [x === "lit"] where [x] may be [undefined]. *)
Definition strict_eq (o : option string) (lit : string) : bool :=
  match o with Some s => String.eqb s lit | None => false end.

(** [ToString] of a value that is a string or [undefined]. *)
Definition to_string (o : option string) : string :=
  match o with Some s => s | None => "undefined" end.

(** Value of a digit in radix 10 or 16. *)
Definition digit_val (radix : Z) (c : ascii) : option Z :=
  let v :=
    if in_range 48 57 c then Some (Z.of_N (code c) - 48)
    else if in_range 97 122 c then Some (Z.of_N (code c) - 87)
    else if in_range 65 90 c then Some (Z.of_N (code c) - 55)
    else None in
  match v with
  | Some d => if d <? radix then Some d else None
  | None => None
  end.

(** The longest prefix of digits, read left to right; [None] when the
    prefix is empty. *)
Fixpoint digits_acc (radix : Z) (s : string) (acc : Z) : Z :=
  match s with
  | EmptyString => acc
  | String c r =>
      match digit_val radix c with
      | Some d => digits_acc radix r (acc * radix + d)
      | None => acc
      end
  end.

Definition digits (radix : Z) (s : string) : option Z :=
  match s with
  | EmptyString => None
  | String c _ =>
      match digit_val radix c with
      | Some _ => Some (digits_acc radix s 0)
      | None => None
      end
  end.

(** A leading sign is removed and remembered. *)
Definition strip_sign (s : string) : bool * string :=
  match s with
  | String c r =>
      if Ascii.eqb c "-" then (true, r)
      else if Ascii.eqb c "+" then (false, r)
      else (false, s)
  | EmptyString => (false, s)
  end.

(** A [0x] or [0X] prefix is removed and selects radix 16. *)
Definition strip_hex (s : string) : option string :=
  match s with
  | String c0 (String c1 r) =>
      if Ascii.eqb c0 "0" && (Ascii.eqb c1 "x" || Ascii.eqb c1 "X")
      then Some r else None
  | _ => None
  end.

(** [parseInt(s)] with no radix argument: leading white space, a sign,
    a [0x]/[0X] prefix, then the digits. [None] is [NaN]. The value is
    exact here; the program rounds it to a double, which is the same
    number for the numeral of a safe integer. *)
Definition parseInt (s : string) : option Z :=
  let (neg, s2) := strip_sign (trimStart s) in
  let mag :=
    match strip_hex s2 with
    | Some r => digits 16 r
    | None => digits 10 s2
    end in
  match mag with
  | Some m => Some (if neg then - m else m)
  | None => None
  end.

(** [n >= parseInt(..)] and [n <= parseInt(..)]: false against [NaN]. *)
Definition ge_num (n : Z) (m : option Z) : bool :=
  match m with Some k => k <=? n | None => false end.

Definition le_num (n : Z) (m : option Z) : bool :=
  match m with Some k => n <=? k | None => false end.

(** [Number.prototype.toString] of a safe integer: the plain decimal
    numeral. (From 1e21 the program writes exponent notation.) *)
Definition num_toString (n : Z) : string :=
  NilZero.string_of_int (Z.to_int n).

End Js.

(** ** Exceptions *)

Inductive JsError : Type :=
| TypeError (msg : string).

Inductive result (A : Type) : Type :=
| Ok (a : A)
| Throw (e : JsError).

Arguments Ok {A} a.
Arguments Throw {A} e.

Definition bind {A B : Type} (r : result A) (k : A -> result B) : result B :=
  match r with
  | Ok a => k a
  | Throw e => Throw e
  end.

Notation "'try!' x ':=' r 'in' k" := (bind r (fun x => k))
  (at level 10, x name, r at level 100, k at level 200).

(** [o.trim()] where [o] may be [undefined]. *)
Definition trim_of (o : option string) : result string :=
  match o with
  | Some s => Ok (Js.trim s)
  | None => Throw (TypeError "Cannot read properties of undefined (reading 'trim')")
  end.

(** ** conversionUtils.ts *)

Record ConversionProfile : Type := mkProfile {
  codec : string;
  bitrate : string;
  channels : string;
}.

(** [Map<string, ConversionProfile>]: the entries in insertion order. *)
Definition ConversionMatrix : Type := list (string * ConversionProfile).

(** [map.set(k, v)]: a present key keeps its place and takes the new
    value, a new key goes to the end. *)
Fixpoint map_set (k : string) (v : ConversionProfile) (m : ConversionMatrix)
  : ConversionMatrix :=
  match m with
  | [] => [(k, v)]
  | (k', v') :: t =>
      if String.eqb k' k then (k, v) :: t else (k', v') :: map_set k v t
  end.

Fixpoint map_get (k : string) (m : ConversionMatrix) : option ConversionProfile :=
  match m with
  | [] => None
  | (k', v') :: t => if String.eqb k' k then Some v' else map_get k t
  end.

Definition FALLBACK_KEY : string := "0|0|0|0|0".

(** The body of the [for (const rule of rules)] loop. *)
Definition parse_rule (rule : string) (map : ConversionMatrix)
  : result ConversionMatrix :=
  let (condition, rest) := Js.split_at "=" rule in
  let result := nth_error rest 0 in
  if Js.truthy condition && Js.truthy_opt result then
    let (codec, rest') := Js.split_at "|" (Js.to_string result) in
    let bitrate := nth_error rest' 0 in
    let channels := nth_error rest' 1 in
    try! c := Ok (Js.trim codec) in
    try! b := trim_of bitrate in
    try! ch := trim_of channels in
    Ok (map_set (Js.trim condition) (mkProfile c b ch) map)
  else if Js.truthy condition && negb (Js.truthy_opt result) then
    let (codec, rest') := Js.split_at "|" condition in
    let bitrate := nth_error rest' 0 in
    let channels := nth_error rest' 1 in
    if Js.truthy codec && Js.truthy_opt bitrate && Js.truthy_opt channels then
      try! c := Ok (Js.trim codec) in
      try! b := trim_of bitrate in
      try! ch := trim_of channels in
      Ok (map_set FALLBACK_KEY (mkProfile c b ch) map)
    else Ok map
  else Ok map.

Fixpoint parse_rules (rules : list string) (map : ConversionMatrix)
  : result ConversionMatrix :=
  match rules with
  | [] => Ok map
  | rule :: rules' => try! map' := parse_rule rule map in parse_rules rules' map'
  end.

Definition parseConversionMatrix (matrixStr : string) : result ConversionMatrix :=
  if negb (Js.truthy matrixStr) then Ok []
  else parse_rules (Js.split "," matrixStr) [].

(** The condition of the [if] in the loop of [findConversion]. *)
Definition condition_matches (condition inputCodec : string)
    (inputBitrate inputChannels : Z) : bool :=
  let (condCodec, rest) := Js.split_at "|" condition in
  let condFromBitrate := nth_error rest 0 in
  let condToBitrate := nth_error rest 1 in
  let condFromChannels := nth_error rest 2 in
  let condToChannels := nth_error rest 3 in
  (String.eqb (Js.toLowerCase condCodec) (Js.toLowerCase inputCodec)
   || String.eqb condCodec "0")
  && (Js.strict_eq condFromBitrate "0"
      || Js.ge_num inputBitrate (Js.parseInt (Js.to_string condFromBitrate)))
  && (Js.strict_eq condToBitrate "0"
      || Js.le_num inputBitrate (Js.parseInt (Js.to_string condToBitrate)))
  && (Js.strict_eq condFromChannels "0"
      || Js.ge_num inputChannels (Js.parseInt (Js.to_string condFromChannels)))
  && (Js.strict_eq condToChannels "0"
      || Js.le_num inputChannels (Js.parseInt (Js.to_string condToChannels))).

(** What both return sites do with the profile they found. *)
Definition resolve_copy (p : ConversionProfile) (inputCodec : string)
    (inputBitrate inputChannels : Z) : ConversionProfile :=
  if String.eqb (Js.toLowerCase (codec p)) "copy" then
    mkProfile inputCodec (Js.num_toString inputBitrate)
              (Js.num_toString inputChannels)
  else p.

(** The [for ... of matrix.entries()] loop: [None] when it runs to the end. *)
Fixpoint find_loop (entries : ConversionMatrix) (inputCodec : string)
    (inputBitrate inputChannels : Z) : option ConversionProfile :=
  match entries with
  | [] => None
  | (condition, resultProfile) :: entries' =>
      if condition_matches condition inputCodec inputBitrate inputChannels
      then Some (resolve_copy resultProfile inputCodec inputBitrate inputChannels)
      else find_loop entries' inputCodec inputBitrate inputChannels
  end.

Definition findConversion (matrix : ConversionMatrix) (inputCodec : string)
    (inputBitrate inputChannels : Z) : option ConversionProfile :=
  match find_loop matrix inputCodec inputBitrate inputChannels with
  | Some p => Some p
  | None =>
      match map_get FALLBACK_KEY matrix with
      | Some fallbackProfile =>
          Some (resolve_copy fallbackProfile inputCodec inputBitrate inputChannels)
      | None => None
      end
  end.

(** ** config.ts *)

(** [String.prototype.includes] with a string argument. *)
Fixpoint str_includes (sub s : string) : bool :=
  String.prefix sub s
  || match s with
     | EmptyString => false
     | String _ r => str_includes sub r
     end.

(** [process.env.X || dflt]: an unset or empty variable gives the default. *)
Definition env_or (v : option string) (dflt : string) : string :=
  if Js.truthy_opt v then Js.to_string v else dflt.

(** [EXCLUDED_CODECS], from the value of the environment variable. *)
Definition excluded_codecs_of_env (v : option string) : list string :=
  Js.split "," (Js.toLowerCase (env_or v "opus")).

Record Config : Type := mkConfig {
  MAX_PARALLEL : Z;
  CONVERSION_DELAY : Z;
  EMBED_METADATA : bool;
  DRY_RUN : bool;
  EXCLUDED_CODECS : list string;
  conversionMatrix : ConversionMatrix;
}.

(** ** absApiClient.ts: the data the dispatcher reads *)

Record AudioFileMetadata : Type := mkAudioFile {
  af_codec : string;
  af_channels : Z;
  af_bitRate : Z;
}.

Record MediaMetadata : Type := mkMedia {
  audioFiles : option (list AudioFileMetadata);
}.

Record AbsItemDetails : Type := mkItemDetails {
  item_id : string;
  media : option MediaMetadata;
}.

(** ** socketClient.ts *)

(** The payload of a Socket.IO event, with the fields the handlers read:
    [payload.id], [payload.action] when it is a string, and
    [payload.data.libraryItemId]. *)
Record Payload : Type := mkPayload {
  payload_id : option string;
  payload_action : option string;
  payload_libraryItemId : option string;
}.

(** [this.ws]: [null], or a socket whose [readyState] is [OPEN] or not. *)
Inductive Ws : Type :=
| WsNull
| WsOpen
| WsNotOpen.

(** The calls the code makes on its collaborators, in the order made. *)
Inductive Call : Type :=
| ApiGetItemDetails (itemId : string)
| ApiStartM4bEncoding (itemId codec bitrate channels : string)
| ApiGetTasks
| RuleFindConversion (codec : string) (bitRate channels : Z)
| TimerDispatch (delay : Z)
| TimerEmbedMetadata (itemId : string)
| ClearReconnectTimer
| WsSend (msg : string)
| WsClose
| WsTerminate
| ProcessExit (code : Z).

(** An invocation of [processEncodingQueue] suspended at an [await]. *)
Inductive Suspended : Type :=
| AwaitItemDetails (itemId : string)
| AwaitStartEncoding (itemId : string)
| AwaitGetTasks (itemId : string).

Record Client : Type := mkClient {
  encodingQueue : list string;
  runningEncodings : Z;
  ws : Ws;
  reconnectTimeout : bool;
  suspended : list Suspended;
  exited : bool;
  calls : list Call;
}.

Definition set_queue (q : list string) (st : Client) : Client :=
  mkClient q (runningEncodings st) (ws st) (reconnectTimeout st)
           (suspended st) (exited st) (calls st).

Definition set_running (r : Z) (st : Client) : Client :=
  mkClient (encodingQueue st) r (ws st) (reconnectTimeout st)
           (suspended st) (exited st) (calls st).

Definition set_ws (w : Ws) (st : Client) : Client :=
  mkClient (encodingQueue st) (runningEncodings st) w (reconnectTimeout st)
           (suspended st) (exited st) (calls st).

Definition set_reconnectTimeout (b : bool) (st : Client) : Client :=
  mkClient (encodingQueue st) (runningEncodings st) (ws st) b
           (suspended st) (exited st) (calls st).

Definition set_suspended (l : list Suspended) (st : Client) : Client :=
  mkClient (encodingQueue st) (runningEncodings st) (ws st) (reconnectTimeout st)
           l (exited st) (calls st).

Definition set_exited (st : Client) : Client :=
  mkClient (encodingQueue st) (runningEncodings st) (ws st) (reconnectTimeout st)
           (suspended st) true (calls st).

Definition call (c : Call) (st : Client) : Client :=
  mkClient (encodingQueue st) (runningEncodings st) (ws st) (reconnectTimeout st)
           (suspended st) (exited st) (calls st ++ [c]).

Definition await (a : Suspended) (st : Client) : Client :=
  set_suspended (suspended st ++ [a]) st.

(** [this.runningEncodings++] and [this.runningEncodings--]. *)
Definition incr (st : Client) : Client := set_running (runningEncodings st + 1) st.
Definition decr (st : Client) : Client := set_running (runningEncodings st - 1) st.

(** A client just constructed, with the given queue. *)
Definition new_client (q : list string) : Client :=
  mkClient q 0 WsNull false [] false [].

(** [process.exit(code)]. *)
Definition process_exit (code : Z) (st : Client) : Client :=
  set_exited (call (ProcessExit code) st).

(** [SocketClient.shutdown]. *)
Definition shutdown (st : Client) : Client :=
  let st1 :=
    if reconnectTimeout st
    then set_reconnectTimeout false (call ClearReconnectTimer st)
    else st in
  let st2 :=
    match ws st1 with
    | WsOpen => set_ws WsNotOpen (call WsClose (call (WsSend "41") st1))
    | WsNotOpen => call WsTerminate st1
    | WsNull => st1
    end in
  match encodingQueue st2 with
  | [] => process_exit 0 st2
  | _ :: _ => st2
  end.

(** The handlers of [main] for SIGINT and SIGTERM call [shutdown] and
    start a timer of 1000 ms whose callback is [process.exit(0)]. *)
Definition on_signal (st : Client) : Client := shutdown st.
Definition on_signal_timer (st : Client) : Client :=
  if exited st then st else process_exit 0 st.

Section Dispatch.

Variable cfg : Config.

(** [EXCLUDED_CODECS.includes(codec.toLowerCase())]. *)
Definition is_excluded (codec : string) : bool :=
  existsb (String.eqb (Js.toLowerCase codec)) (EXCLUDED_CODECS cfg).

(** [processEncodingQueue] up to its first [await]. *)
Definition processEncodingQueue (st : Client) : Client :=
  if exited st then st else
  match encodingQueue st with
  | [] => if DRY_RUN cfg then shutdown st else st
  | itemId :: rest =>
      if MAX_PARALLEL cfg <=? runningEncodings st then st
      else
        let st1 := set_queue rest st in
        if negb (Js.truthy itemId) then st1
        else await (AwaitItemDetails itemId)
                   (call (ApiGetItemDetails itemId) (incr st1))
  end.

(** The three ways an attempt gives up: [runningEncodings--] and
    [void this.processEncodingQueue()]. *)
Definition skip (st : Client) : Client := processEncodingQueue (decr st).

(** From the answer of [getItemDetails] to the next [await]. *)
Definition after_getItemDetails (itemId : string)
    (r : result AbsItemDetails) (st : Client) : Client :=
  match r with
  | Throw _ => skip st
  | Ok itemDetails =>
      let audioFiles :=
        match media itemDetails with
        | Some m => audioFiles m
        | None => None
        end in
      match audioFiles with
      | None | Some [] => skip st
      | Some (audioFile :: _) =>
          if is_excluded (af_codec audioFile) then skip st
          else
            let st1 :=
              call (RuleFindConversion (af_codec audioFile)
                      (af_bitRate audioFile) (af_channels audioFile)) st in
            match findConversion (conversionMatrix cfg) (af_codec audioFile)
                    (af_bitRate audioFile) (af_channels audioFile) with
            | None => skip st1
            | Some conversionProfile =>
                await (AwaitStartEncoding itemId)
                  (call (ApiStartM4bEncoding itemId
                           (codec conversionProfile)
                           (bitrate conversionProfile)
                           (channels conversionProfile)) st1)
            end
      end
  end.

(** From the answer of [startM4bEncoding] to the next [await]. *)
Definition after_startM4bEncoding (itemId : string) (r : result unit)
    (st : Client) : Client :=
  match r with
  | Throw _ => skip st
  | Ok _ => await (AwaitGetTasks itemId) (call ApiGetTasks st)
  end.

(** From the answer of [getTasks] to the end of the attempt. *)
Definition after_getTasks (r : result Z) (st : Client) : Client :=
  match r with
  | Throw _ => st
  | Ok n => set_running n st
  end.

(** [for (let i = from; i < MAX_PARALLEL; i++) void this.processEncodingQueue()] *)
Definition backfill (from : Z) (st : Client) : Client :=
  Nat.iter (Z.to_nat (MAX_PARALLEL cfg - from)) processEncodingQueue st.

(** [handleSocketIoEvent]. *)
Definition handleSocketIoEvent (eventName : string) (payload : Payload)
    (st : Client) : Client :=
  if String.eqb eventName "item_added" then
    if Js.truthy_opt (payload_id payload) then
      call (TimerDispatch (CONVERSION_DELAY cfg))
           (set_queue (encodingQueue st ++ [Js.to_string (payload_id payload)]) st)
    else st
  else if String.eqb eventName "task_finished" then
    match payload_action payload with
    | Some action =>
        if str_includes "encode" action then
          let st1 := decr st in
          let st2 :=
            if EMBED_METADATA cfg && Js.truthy_opt (payload_libraryItemId payload)
            then call (TimerEmbedMetadata
                         (Js.to_string (payload_libraryItemId payload))) st1
            else st1 in
          backfill (runningEncodings st2) st2
        else st
    | None => st
    end
  else st.

(** What the scheduler can run next. *)
Inductive Event : Type :=
| DispatchTimer
| ItemDetailsSettled (i : nat) (r : result AbsItemDetails)
| StartEncodingSettled (i : nat) (r : result unit)
| GetTasksSettled (i : nat) (r : result Z)
| SocketIoEvent (eventName : string) (payload : Payload).

(** One turn of the scheduler. An answer for a suspended invocation that
    is not there, or that waits for something else, changes nothing. *)
Definition step (st : Client) (ev : Event) : Client :=
  if exited st then st else
  match ev with
  | DispatchTimer => processEncodingQueue st
  | ItemDetailsSettled i r =>
      match suspended st !! i with
      | Some (AwaitItemDetails itemId) =>
          after_getItemDetails itemId r (set_suspended (delete i (suspended st)) st)
      | _ => st
      end
  | StartEncodingSettled i r =>
      match suspended st !! i with
      | Some (AwaitStartEncoding itemId) =>
          after_startM4bEncoding itemId r (set_suspended (delete i (suspended st)) st)
      | _ => st
      end
  | GetTasksSettled i r =>
      match suspended st !! i with
      | Some (AwaitGetTasks itemId) =>
          after_getTasks r (set_suspended (delete i (suspended st)) st)
      | _ => st
      end
  | SocketIoEvent eventName payload => handleSocketIoEvent eventName payload st
  end.

Definition run (st : Client) (evs : list Event) : Client :=
  fold_left step evs st.

End Dispatch.

(** ** The rule table in the words of the specification *)

Module Spec.

(** Condition = codec or wildcard, and two pairs of integer bounds; the
    wildcard is 0, and 0 on a bound leaves that side open. *)
Record Condition : Type := mkCondition {
  condCodec : string;
  bitrateLow : Z;
  bitrateHigh : Z;
  channelsLow : Z;
  channelsHigh : Z;
}.

Definition ConversionRule : Type := (Condition * ConversionProfile)%type.

(** [x] lies within the inclusive bounds, 0 meaning no bound. *)
Definition within (low high x : Z) : bool :=
  ((low =? 0) || (low <=? x)) && ((high =? 0) || (x <=? high)).

(** Equal without regard to letter case, or the wildcard. *)
Definition codec_ok (c : Condition) (inputCodec : string) : bool :=
  String.eqb (Js.toLowerCase (condCodec c)) (Js.toLowerCase inputCodec)
  || String.eqb (condCodec c) "0".

Definition holds (c : Condition) (inputCodec : string)
    (bitrateBps channelCount : Z) : bool :=
  codec_ok c inputCodec
  && within (bitrateLow c) (bitrateHigh c) bitrateBps
  && within (channelsLow c) (channelsHigh c) channelCount.

(** The first rule, in declaration order, whose condition holds. *)
Fixpoint first_match (rules : list ConversionRule) (inputCodec : string)
    (bitrateBps channelCount : Z) : option ConversionRule :=
  match rules with
  | [] => None
  | r :: rules' =>
      if holds (fst r) inputCodec bitrateBps channelCount then Some r
      else first_match rules' inputCodec bitrateBps channelCount
  end.

(** The text of a condition, in the format that the comment of
    [parseConversionMatrix] gives:
    [condCodec|fromBitrate|toBitrate|fromChannels|toChannels]. *)
Definition key_of (c : Condition) : string :=
  condCodec c ++ "|" ++ Js.num_toString (bitrateLow c)
    ++ "|" ++ Js.num_toString (bitrateHigh c)
    ++ "|" ++ Js.num_toString (channelsLow c)
    ++ "|" ++ Js.num_toString (channelsHigh c).

(** The matrix that holds the rules in their order. *)
Definition table (rules : list ConversionRule) : ConversionMatrix :=
  map (fun r => (key_of (fst r), snd r)) rules.

(** The character occurs in the string. *)
Fixpoint has_char (x : ascii) (s : string) : bool :=
  match s with
  | EmptyString => false
  | String c r => Ascii.eqb c x || has_char x r
  end.

End Spec.

(** ** Auxiliary definitions of the statements *)

(** Decimal digits. *)
Definition is_digit (c : ascii) : bool := Js.in_range 48 57 c.

Fixpoint all_digits (s : string) : bool :=
  match s with
  | EmptyString => true
  | String c r => is_digit c && all_digits r
  end.

(** The entry at which the loop of [findConversion] stops. *)
Definition first_entry (m : ConversionMatrix) (inputCodec : string)
    (inputBitrate inputChannels : Z) : option (string * ConversionProfile) :=
  find (fun e => condition_matches (fst e) inputCodec inputBitrate inputChannels) m.

(** The configuration of a process whose list of excluded codecs comes
    from the environment variable. *)
Definition cfg_of_env (v : option string) (base : Config) : Config :=
  mkConfig (MAX_PARALLEL base) (CONVERSION_DELAY base) (EMBED_METADATA base)
           (DRY_RUN base) (excluded_codecs_of_env v) (conversionMatrix base).

(** A completion signal: the event [task_finished]. *)
Definition is_completion (ev : Event) : bool :=
  match ev with
  | SocketIoEvent eventName _ => String.eqb eventName "task_finished"
  | _ => false
  end.

(** A resynchronisation, if the event is one, reports at most [K] jobs. *)
Definition resync_within (K : Z) (ev : Event) : bool :=
  match ev with
  | GetTasksSettled _ (Ok n) => n <=? K
  | _ => true
  end.

(** The first audio file of the item has an excluded codec. *)
Definition first_file_excluded (cfg : Config) (d : AbsItemDetails) : bool :=
  match media d with
  | Some m =>
      match audioFiles m with
      | Some (audioFile :: _) => is_excluded cfg (af_codec audioFile)
      | _ => false
      end
  | None => false
  end.

(** Calls on the rule engine and on the encoding capability. *)
Definition is_rule_or_encode (c : Call) : bool :=
  match c with
  | RuleFindConversion _ _ _ => true
  | ApiStartM4bEncoding _ _ _ _ => true
  | _ => false
  end.

(** The calls of a shutdown, as the specification lists them: the pending
    reconnect timer is cancelled; an open connection gets the
    namespace-disconnect frame and is closed, another one is terminated;
    the process exits when the queue is empty. *)
Definition shutdown_calls (st : Client) : list Call :=
  ((if reconnectTimeout st then [ClearReconnectTimer] else [])
   ++ match ws st with
      | WsOpen => [WsSend "41"; WsClose]
      | WsNotOpen => [WsTerminate]
      | WsNull => []
      end
   ++ match encodingQueue st with
      | [] => [ProcessExit 0]
      | _ :: _ => []
      end)%list.

(** Sample data of the checks below. *)
Definition readme_rules : list Spec.ConversionRule :=
  [(Spec.mkCondition "0" 1 48000 1 1, mkProfile "opus" "24000" "1");
   (Spec.mkCondition "mp3" 48000 72000 0 0, mkProfile "copy" "0" "0");
   (Spec.mkCondition "0" 0 0 0 0, mkProfile "opus" "64000" "2")].

Definition default_cfg : Config :=
  mkConfig 1 15000 false false ["opus"]
           [("0|0|0|0|0", mkProfile "copy" "0" "0")].

Definition mp3_item (id : string) : AbsItemDetails :=
  mkItemDetails id (Some (mkMedia (Some [mkAudioFile "mp3" 2 128000]))).

Definition opus_item (id : string) : AbsItemDetails :=
  mkItemDetails id (Some (mkMedia (Some [mkAudioFile "Opus" 2 64000]))).


(** ** config.ts: the addresses and the numeric settings *)

(** [s.startsWith(p)]. *)
Definition startsWith (s p : string) : bool := String.prefix p s.

(** [s.substring(n)]. *)
Fixpoint substring_from (n : nat) (s : string) : string :=
  match n, s with
  | O, _ => s
  | S n', String _ r => substring_from n' r
  | S _, EmptyString => EmptyString
  end.

Definition SOCKET_IO_QUERY : string := "/socket.io/?EIO=4&transport=websocket".

Definition getWebSocketUrl (ABS_HOST_RAW : string) : string :=
  if startsWith ABS_HOST_RAW "http://" then
    "ws://" ++ substring_from 7 ABS_HOST_RAW ++ SOCKET_IO_QUERY
  else if startsWith ABS_HOST_RAW "https://" then
    "wss://" ++ substring_from 8 ABS_HOST_RAW ++ SOCKET_IO_QUERY
  else "ws://" ++ ABS_HOST_RAW ++ SOCKET_IO_QUERY.

Definition getApiBaseUrl (ABS_HOST_RAW : string) : string :=
  if startsWith ABS_HOST_RAW "http://" || startsWith ABS_HOST_RAW "https://"
  then ABS_HOST_RAW
  else "http://" ++ ABS_HOST_RAW.

(** [parseInt(s, 10)]: as [parseInt(s)], but a [0x] prefix is not looked
    for. Exact here, rounded to a double in the program; the same number
    for the numeral of a safe integer. *)
Definition parseInt_radix10 (s : string) : option Z :=
  let (neg, s2) := Js.strip_sign (Js.trimStart s) in
  match Js.digits 10 s2 with
  | Some m => Some (if neg then - m else m)
  | None => None
  end.

(** [parseInt(process.env.X || dflt, 10)], the shape of [MAX_PARALLEL] and
    of [CONVERSION_DELAY]. *)
Definition int_of_env (v : option string) (dflt : string) : option Z :=
  parseInt_radix10 (env_or v dflt).

Definition MAX_PARALLEL_of_env (v : option string) : option Z := int_of_env v "1".

Definition CONVERSION_DELAY_of_env (v : option string) : option Z :=
  int_of_env v "15000".

(** ** socketClient.ts: the initial scan of the libraries *)

Record Library : Type := mkLibrary {
  library_id : string;
  mediaType : string;
}.

Record LibraryItem : Type := mkLibraryItem {
  libraryItem_id : string;
}.

(** The loop over the items of one library: an item goes to the end of
    the queue when it has an identifier that the queue does not hold. *)
Fixpoint enqueue_items (items : list LibraryItem) (queue : list string)
    (itemsEnqueuedThisScan : Z) : list string * Z :=
  match items with
  | [] => (queue, itemsEnqueuedThisScan)
  | item :: items' =>
      if Js.truthy (libraryItem_id item)
         && negb (existsb (String.eqb (libraryItem_id item)) queue)
      then enqueue_items items' (queue ++ [libraryItem_id item])
                         (itemsEnqueuedThisScan + 1)
      else enqueue_items items' queue itemsEnqueuedThisScan
  end.

(** The loop over the libraries. A library that is not of books is passed
    over; one whose items cannot be fetched is logged and passed over. *)
Fixpoint scan_libraries (getLibraryItems : string -> result (list LibraryItem))
    (libraries : list Library) (queue : list string)
    (itemsEnqueuedThisScan : Z) : list string * Z :=
  match libraries with
  | [] => (queue, itemsEnqueuedThisScan)
  | library :: libraries' =>
      if negb (String.eqb (mediaType library) "book") then
        scan_libraries getLibraryItems libraries' queue itemsEnqueuedThisScan
      else
        match getLibraryItems (library_id library) with
        | Ok items =>
            let (queue', n') := enqueue_items items queue itemsEnqueuedThisScan in
            scan_libraries getLibraryItems libraries' queue' n'
        | Throw _ =>
            scan_libraries getLibraryItems libraries' queue itemsEnqueuedThisScan
        end
  end.

(** What a scan leaves behind: the queue, the number of entries it added,
    the flag, and the delay of the timer it started, if it started one. *)
Record ScanOutcome : Type := mkScanOutcome {
  scan_queue : list string;
  scan_enqueued : Z;
  initialScanPerformed : bool;
  scan_timer : option Z;
}.

(** [performInitialLibraryScan], with the answers of the control plane
    given and no other handler running between them. *)
Definition performInitialLibraryScan (cfg : Config)
    (getLibraries : result (list Library))
    (getLibraryItems : string -> result (list LibraryItem))
    (queue : list string) : ScanOutcome :=
  match getLibraries with
  | Throw _ => mkScanOutcome queue 0 true None
  | Ok [] => mkScanOutcome queue 0 true None
  | Ok libraries =>
      let (queue', n) := scan_libraries getLibraryItems libraries queue 0 in
      mkScanOutcome queue' n true
        (if 0 <? n
         then Some (if 0 <? CONVERSION_DELAY cfg then CONVERSION_DELAY cfg else 2000)
         else None)
  end.

(** ** socketClient.ts: incoming frames *)

(** What [onMessage] looks at in the result of [JSON.parse]: an array
    that is not empty, with its first element and the fields of the
    second that the handlers read, or anything else. *)
Inductive Parsed : Type :=
| EventArray (eventName : string) (payload : Payload)
| NotAnEventArray.

(** A callback handed to [setTimeout] by [onMessage]. *)
Inductive Deferred : Type :=
| DeferInitialScan.

Section Frames.

Variable cfg : Config.
Variable ABS_TOKEN : string.
Variable ENCODE_LIBRARY : bool.

(** [JSON.parse] of the text of an event frame, and
    [JSON.stringify([eventName, payload])] for a payload that is a string. *)
Variable JSON_parse : string -> result Parsed.
Variable JSON_stringify : string -> string -> string.

Definition sendRawSocketMessage (message : string) (st : Client) : Client :=
  match ws st with
  | WsOpen => call (WsSend message) st
  | _ => st
  end.

Definition sendSocketIoEvent (eventName payload : string) (st : Client) : Client :=
  match ws st with
  | WsOpen => call (WsSend ("42" ++ JSON_stringify eventName payload)) st
  | _ => st
  end.

Definition onMessage (messageStr : string) (st : Client) : Client * list Deferred :=
  if String.eqb messageStr "2" then (sendRawSocketMessage "3" st, [])
  else if startsWith messageStr "0" then (st, [])
  else if startsWith messageStr "40" then
    (sendSocketIoEvent "auth" ABS_TOKEN st,
     if ENCODE_LIBRARY then [DeferInitialScan] else [])
  else if startsWith messageStr "42" then
    match JSON_parse (substring_from 2 messageStr) with
    | Ok (EventArray eventName payload) =>
        (handleSocketIoEvent cfg eventName payload st, [])
    | Ok NotAnEventArray => (st, [])
    | Throw _ => (st, [])
    end
  else (st, []).

End Frames.

(** ** Further definitions of the statements *)

(** What the body of the parser's loop stores for an item: an entry,
    nothing, or an exception. *)
Definition entry_of_rule (rule : string)
  : result (option (string * ConversionProfile)) :=
  let (condition, rest) := Js.split_at "=" rule in
  let result := nth_error rest 0 in
  if Js.truthy condition && Js.truthy_opt result then
    let (codec, rest') := Js.split_at "|" (Js.to_string result) in
    try! b := trim_of (nth_error rest' 0) in
    try! ch := trim_of (nth_error rest' 1) in
    Ok (Some (Js.trim condition, mkProfile (Js.trim codec) b ch))
  else if Js.truthy condition && negb (Js.truthy_opt result) then
    let (codec, rest') := Js.split_at "|" condition in
    if Js.truthy codec && Js.truthy_opt (nth_error rest' 0)
       && Js.truthy_opt (nth_error rest' 1)
    then
      try! b := trim_of (nth_error rest' 0) in
      try! ch := trim_of (nth_error rest' 1) in
      Ok (Some (FALLBACK_KEY, mkProfile (Js.trim codec) b ch))
    else Ok None
  else Ok None.

(** An item with a condition and an action of fewer than three fields. *)
Definition short_action (rule : string) : bool :=
  let (condition, rest) := Js.split_at "=" rule in
  let result := nth_error rest 0 in
  Js.truthy condition && Js.truthy_opt result
  && (length (Js.split "|" (Js.to_string result)) <? 3)%nat.

(** White space occurs in the string. *)
Fixpoint has_space (s : string) : bool :=
  match s with
  | EmptyString => false
  | String c r => Js.is_space c || has_space r
  end.

(** A field that can be written into the text of a table as it is. *)
Definition plain (s : string) : bool :=
  negb (Spec.has_char "," s) && negb (Spec.has_char "=" s)
  && negb (Spec.has_char "|" s) && negb (has_space s).

Definition plain_rule (r : Spec.ConversionRule) : bool :=
  plain (Spec.condCodec (fst r)) && plain (codec (snd r))
  && plain (bitrate (snd r)) && plain (channels (snd r)).

(** [items.join(sep)]. *)
Fixpoint join (sep : string) (items : list string) : string :=
  match items with
  | [] => EmptyString
  | [x] => x
  | x :: rest => x ++ sep ++ join sep rest
  end.

(** The text of a rule and of a table, in the format of the parser. *)
Definition render_rule (r : Spec.ConversionRule) : string :=
  Spec.key_of (fst r) ++ "=" ++ codec (snd r) ++ "|" ++ bitrate (snd r)
    ++ "|" ++ channels (snd r).

Definition render (rules : list Spec.ConversionRule) : string :=
  join "," (map render_rule rules).

(** The entries in the order in which they are set, from an empty map. *)
Definition set_all (es : list (string * ConversionProfile)) : ConversionMatrix :=
  fold_left (fun m e => map_set (fst e) (snd e) m) es [].

(** The identifiers for which [getItemDetails] was called, in order. *)
Fixpoint fetched (cs : list Call) : list string :=
  match cs with
  | [] => []
  | ApiGetItemDetails itemId :: cs' => itemId :: fetched cs'
  | _ :: cs' => fetched cs'
  end.

(** The identifiers that the [item_added] events of a sequence carry. *)
Fixpoint added (evs : list Event) : list string :=
  match evs with
  | [] => []
  | SocketIoEvent eventName payload :: evs' =>
      if String.eqb eventName "item_added" && Js.truthy_opt (payload_id payload)
      then Js.to_string (payload_id payload) :: added evs'
      else added evs'
  | _ :: evs' => added evs'
  end.

(** The suspended invocations that have not started an encoding yet. *)
Fixpoint inflight (l : list Suspended) : Z :=
  match l with
  | [] => 0
  | AwaitGetTasks _ :: l' => inflight l'
  | _ :: l' => 1 + inflight l'
  end.

(** The encodings started: each successful start is followed by one call
    of [getTasks]. *)
Fixpoint started (cs : list Call) : Z :=
  match cs with
  | [] => 0
  | ApiGetTasks :: cs' => 1 + started cs'
  | _ :: cs' => started cs'
  end.

(** A successful resynchronisation. *)
Definition is_resync (ev : Event) : bool :=
  match ev with
  | GetTasksSettled _ (Ok _) => true
  | _ => false
  end.

(** The state in which the given entries, the head of the queue, have
    been taken and their attempts wait for [getItemDetails]. *)
Definition attempts_started (k : nat) (st : Client) : Client :=
  mkClient (drop k (encodingQueue st))
           (runningEncodings st + Z.of_nat k) (ws st) (reconnectTimeout st)
           (suspended st ++ map AwaitItemDetails (take k (encodingQueue st)))
           (exited st)
           (calls st ++ map ApiGetItemDetails (take k (encodingQueue st))).

(** The free capacity, and how many attempts a backfill can start. *)
Definition capacity (cfg : Config) (st : Client) : nat :=
  Z.to_nat (MAX_PARALLEL cfg - runningEncodings st).

(** A write on the socket. *)
Definition is_ws_write (c : Call) : bool :=
  match c with
  | WsSend _ => true
  | WsClose => true
  | _ => false
  end.

(** What is fetched, followed by what is queued. *)
Definition served (st : Client) : list string :=
  (fetched (calls st) ++ encodingQueue st)%list.

(** Every identifier in the list is a non-empty string. *)
Definition all_truthy (q : list string) : Prop :=
  Forall (fun itemId => Js.truthy itemId = true) q.

(** The counter, less the attempts in flight and the encodings started. *)
Definition balance (st : Client) : Z :=
  runningEncodings st - inflight (suspended st) - started (calls st).

(** What an attempt counts for in [inflight]. *)
Definition weight (a : Suspended) : Z :=
  match a with
  | AwaitGetTasks _ => 0
  | _ => 1
  end.

(** From [st] to [st'] the socket is the same and nothing was written on
    it: the calls of [st'] are those of [st] and then calls that are no
    writes. *)
Definition no_write_since (st st' : Client) : Prop :=
  ws st' = ws st
  /\ exists extra,
       calls st' = (calls st ++ extra)%list
       /\ Forall (fun c => is_ws_write c = false) extra.

(** The identifiers of the items of a library. *)
Definition item_ids (items : list LibraryItem) : list string :=
  map libraryItem_id items.

(** The text of an event array that reports an added item. *)
Definition dquote : string := String (ascii_of_nat 34) EmptyString.

Definition item_added_text : string :=
  "[" ++ dquote ++ "item_added" ++ dquote ++ ",{" ++ dquote ++ "id" ++ dquote
      ++ ":" ++ dquote ++ "a" ++ dquote ++ "}]".

(** ** The numbers of the model *)

(** The integers that a JavaScript number holds exactly and that
    [Number.prototype.toString] writes as their plain decimal numeral:
    those up to [Number.MAX_SAFE_INTEGER] in absolute value. On these
    [Js.num_toString], [Js.parseInt], [parseInt_radix10] and the
    comparisons of [Z] are those of the program; beyond them the program
    rounds to a double and, from 1e21, writes exponent notation. *)
Definition safe_integer (n : Z) : Prop :=
  - 9007199254740991 <= n <= 9007199254740991.

(** A rule whose condition can be written as a key: no field separator
    in the codec, bounds that are safe integers. *)
Definition safe_rule (r : Spec.ConversionRule) : Prop :=
  Spec.has_char "|" (Spec.condCodec (fst r)) = false
  /\ safe_integer (Spec.bitrateLow (fst r))
  /\ safe_integer (Spec.bitrateHigh (fst r))
  /\ safe_integer (Spec.channelsLow (fst r))
  /\ safe_integer (Spec.channelsHigh (fst r)).

(** ** socketClient.ts and index.ts: the turns of the scheduler *)

(** [connect]: a pending reconnect timer is cleared and a new socket,
    not open yet, takes the place of [this.ws]. *)
Definition connect (st : Client) : Client :=
  let st1 :=
    if reconnectTimeout st
    then set_reconnectTimeout false (call ClearReconnectTimer st)
    else st in
  set_ws WsNotOpen st1.

(** The socket has opened and [onOpen] runs: it starts the timer of the
    namespace connect and writes nothing itself. *)
Definition onOpen (st : Client) : Client :=
  match ws st with
  | WsNull => st
  | _ => set_ws WsOpen st
  end.

(** [onClose]: [this.ws] becomes [null] and the reconnect timer is started
    unless one is pending. *)
Definition onClose (st : Client) : Client :=
  let st1 := set_ws WsNull st in
  if reconnectTimeout st1 then st1 else set_reconnectTimeout true st1.

(** What the scheduler of the process can run: the turns of the
    dispatcher, the resumption of the library scan with the items of a
    library and the timer that the scan starts, an incoming frame, the
    turns of the connection, and the signal handlers of [main] with their
    timer. The callbacks that only log or call the control plane, and
    touch neither queue, counter, socket nor process, are the quiet
    turns: [onError], the timer of the metadata embedding and its
    settlement, the start of the scan and the arrival of the list of
    libraries. *)
Inductive Turn : Type :=
| EventTurn (ev : Event)
| ScanItemsTurn (items : list LibraryItem)
| ScanTimerTurn
| FrameTurn (messageStr : string)
| ConnectTurn
| OpenTurn
| NamespaceConnectTurn
| CloseTurn
| SignalTurn
| SignalTimerTurn
| QuietTurn.

Section Turns.

Variable cfg : Config.
Variable ABS_TOKEN : string.
Variable ENCODE_LIBRARY : bool.
Variable JSON_parse : string -> result Parsed.
Variable JSON_stringify : string -> string -> string.

Definition turn (st : Client) (t : Turn) : Client :=
  if exited st then st else
  match t with
  | EventTurn ev => step cfg st ev
  | ScanItemsTurn items =>
      set_queue (fst (enqueue_items items (encodingQueue st) 0)) st
  | ScanTimerTurn => backfill cfg (runningEncodings st) st
  | FrameTurn messageStr =>
      fst (onMessage cfg ABS_TOKEN ENCODE_LIBRARY JSON_parse JSON_stringify
                     messageStr st)
  | ConnectTurn => connect st
  | OpenTurn => onOpen st
  | NamespaceConnectTurn => sendRawSocketMessage "40" st
  | CloseTurn => onClose st
  | SignalTurn => on_signal st
  | SignalTimerTurn => on_signal_timer st
  | QuietTurn => st
  end.

Definition run_turns (st : Client) (ts : list Turn) : Client :=
  fold_left turn ts st.

(** The event that a frame carries to the handlers, if it carries one:
    the frame begins with "42" and the rest is the text of an event. *)
Definition frame_event (messageStr : string) : option (string * Payload) :=
  if startsWith messageStr "42" then
    match JSON_parse (substring_from 2 messageStr) with
    | Ok (EventArray eventName payload) => Some (eventName, payload)
    | _ => None
    end
  else None.

(** The identifiers of a list that are not empty and not among those
    seen, each at its first occurrence. *)
Fixpoint fresh_ids (seen ids : list string) : list string :=
  match ids with
  | [] => []
  | id :: ids' =>
      if Js.truthy id && negb (existsb (String.eqb id) seen)
      then id :: fresh_ids (id :: seen) ids'
      else fresh_ids seen ids'
  end.

(** The identifiers that a turn brings: the one of an [item_added] event,
    direct or in a frame, and those of the items of a library that the
    queue does not hold when the scan resumes. *)
Definition entering (st : Client) (t : Turn) : list string :=
  match t with
  | EventTurn ev => added [ev]
  | FrameTurn messageStr =>
      match frame_event messageStr with
      | Some (eventName, payload) => added [SocketIoEvent eventName payload]
      | None => []
      end
  | ScanItemsTurn items =>
      fresh_ids (encodingQueue st) (map libraryItem_id items)
  | _ => []
  end.

Fixpoint entered (st : Client) (ts : list Turn) : list string :=
  match ts with
  | [] => []
  | t :: ts' => (entering st t ++ entered (turn st t) ts')%list
  end.

End Turns.

(** * Properties *)

(** ** Strings *)

Lemma split_at_without sep s :
  Spec.has_char sep s = false -> Js.split_at sep s = (s, []).
Proof.
  induction s as [|c r IH]; simpl; [reflexivity|].
  intros H. apply orb_false_iff in H as [Hc Hr].
  rewrite (IH Hr), Hc. reflexivity.
Qed.

Lemma split_at_append sep a b :
  Spec.has_char sep a = false ->
  Js.split_at sep (a ++ String sep b) = (a, Js.split sep b).
Proof.
  induction a as [|c r IH]; simpl; intros H.
  - unfold Js.split. destruct (Js.split_at sep b) as [h t].
    rewrite Ascii.eqb_refl. reflexivity.
  - apply orb_false_iff in H as [Hc Hr].
    rewrite (IH Hr), Hc. reflexivity.
Qed.

Lemma split_append sep a b :
  Spec.has_char sep a = false ->
  Js.split sep (a ++ String sep b) = a :: Js.split sep b.
Proof.
  intros H. unfold Js.split at 1. rewrite (split_at_append _ _ _ H). reflexivity.
Qed.

Lemma split_without sep s :
  Spec.has_char sep s = false -> Js.split sep s = [s].
Proof.
  intros H. unfold Js.split. rewrite (split_at_without _ _ H). reflexivity.
Qed.

(** ** Decimal numerals *)

Lemma uint_all_digits u : all_digits (NilEmpty.string_of_uint u) = true.
Proof. induction u; simpl; auto. Qed.

Lemma digits_acc_uint u : forall acc : positive,
  Js.digits_acc 10 (NilEmpty.string_of_uint u) (Z.pos acc)
  = Z.pos (Pos.of_uint_acc u acc).
Proof.
  induction u; intros acc; simpl; try reflexivity;
    rewrite <- IHu; f_equal; lia.
Qed.

Lemma digits_acc_uint0 u :
  Js.digits_acc 10 (NilEmpty.string_of_uint u) 0 = Z.of_N (Pos.of_uint u).
Proof.
  induction u; simpl; try reflexivity; try assumption;
    apply digits_acc_uint.
Qed.

(** What the parser needs to know of a decimal digit. *)
Lemma digit_facts c :
  is_digit c = true ->
  Js.is_space c = false
  /\ Ascii.eqb c "-" = false /\ Ascii.eqb c "+" = false
  /\ Ascii.eqb c "x" = false /\ Ascii.eqb c "X" = false
  /\ Ascii.eqb c "|" = false
  /\ exists d, Js.digit_val 10 c = Some d.
Proof.
  destruct c as [[] [] [] [] [] [] [] []]; vm_compute; intros H;
    try discriminate H; repeat split; eauto.
Qed.

Lemma parseInt_digits c r :
  is_digit c = true -> all_digits r = true ->
  Js.parseInt (String c r) = Some (Js.digits_acc 10 (String c r) 0).
Proof.
  intros Hc Hr.
  destruct (digit_facts c Hc) as (Hsp & Hm & Hp & _ & _ & _ & d & Hd).
  unfold Js.parseInt. cbn [Js.trimStart]. rewrite Hsp.
  cbn [Js.strip_sign]. rewrite Hm, Hp. cbv beta iota.
  assert (Hhex : Js.strip_hex (String c r) = None).
  { destruct r as [|c1 r1]; [reflexivity|]. cbn [Js.strip_hex].
    cbn [all_digits] in Hr. apply andb_true_iff in Hr as [Hc1 _].
    destruct (digit_facts c1 Hc1) as (_ & _ & _ & Hx & HX & _).
    rewrite Hx, HX, andb_false_r. reflexivity. }
  rewrite Hhex. unfold Js.digits. rewrite Hd. reflexivity.
Qed.

Lemma parseInt_minus_digits c r :
  is_digit c = true -> all_digits r = true ->
  Js.parseInt (String "-" (String c r))
  = Some (- Js.digits_acc 10 (String c r) 0).
Proof.
  intros Hc Hr.
  destruct (digit_facts c Hc) as (Hsp & Hm & Hp & _ & _ & _ & d & Hd).
  unfold Js.parseInt.
  change (Js.trimStart (String "-" (String c r))) with (String "-" (String c r)).
  change (Js.strip_sign (String "-" (String c r))) with (true, String c r).
  cbv beta iota.
  assert (Hhex : Js.strip_hex (String c r) = None).
  { destruct r as [|c1 r1]; [reflexivity|]. cbn [Js.strip_hex].
    cbn [all_digits] in Hr. apply andb_true_iff in Hr as [Hc1 _].
    destruct (digit_facts c1 Hc1) as (_ & _ & _ & Hx & HX & _).
    rewrite Hx, HX, andb_false_r. reflexivity. }
  rewrite Hhex. unfold Js.digits. rewrite Hd. reflexivity.
Qed.

(** The numeral of a positive number: a digit, then digits. *)
Lemma pos_numeral p :
  exists c r,
    NilZero.string_of_uint (Pos.to_uint p) = String c r
    /\ is_digit c = true /\ all_digits r = true
    /\ Js.digits_acc 10 (String c r) 0 = Z.pos p.
Proof.
  pose proof (Unsigned.to_uint_nonnil p) as Hnil.
  pose proof (uint_all_digits (Pos.to_uint p)) as Hall.
  pose proof (digits_acc_uint0 (Pos.to_uint p)) as Hval.
  rewrite DecimalPos.Unsigned.of_to in Hval.
  assert (Heq : NilZero.string_of_uint (Pos.to_uint p)
                = NilEmpty.string_of_uint (Pos.to_uint p)).
  { destruct (Pos.to_uint p); [contradiction|reflexivity..]. }
  rewrite Heq.
  destruct (NilEmpty.string_of_uint (Pos.to_uint p)) as [|c r] eqn:E.
  - destruct (Pos.to_uint p); try contradiction; discriminate E.
  - cbn [all_digits] in Hall. apply andb_true_iff in Hall as [Hc Hr].
    exists c, r. auto.
Qed.

(** [parseInt] reads back what [toString] wrote. *)
Lemma parseInt_num_toString n : Js.parseInt (Js.num_toString n) = Some n.
Proof.
  destruct n as [|p|p]; [reflexivity| |]; unfold Js.num_toString; simpl.
  - destruct (pos_numeral p) as (c & r & -> & Hc & Hr & Hv).
    rewrite (parseInt_digits c r Hc Hr), Hv. reflexivity.
  - destruct (pos_numeral p) as (c & r & -> & Hc & Hr & Hv).
    rewrite (parseInt_minus_digits c r Hc Hr), Hv. reflexivity.
Qed.

Lemma num_toString_is_0 n : String.eqb (Js.num_toString n) "0" = (n =? 0).
Proof.
  destruct (String.eqb_spec (Js.num_toString n) "0") as [E|E].
  - pose proof (parseInt_num_toString n) as H. rewrite E in H.
    vm_compute in H. injection H as <-. reflexivity.
  - destruct (Z.eqb_spec n 0) as [->|]; [|reflexivity].
    exfalso. apply E. reflexivity.
Qed.

Lemma all_digits_no_bar s : all_digits s = true -> Spec.has_char "|" s = false.
Proof.
  induction s as [|c r IH]; simpl; [reflexivity|].
  intros H. apply andb_true_iff in H as [Hc Hr].
  destruct (digit_facts c Hc) as (_ & _ & _ & _ & _ & Hbar & _).
  rewrite Hbar, (IH Hr). reflexivity.
Qed.

Lemma num_toString_no_bar n : Spec.has_char "|" (Js.num_toString n) = false.
Proof.
  destruct n as [|p|p]; [reflexivity| |]; unfold Js.num_toString; simpl;
    destruct (pos_numeral p) as (c & r & -> & Hc & Hr & _);
    apply (all_digits_no_bar (String c r)); simpl; rewrite Hc, Hr; reflexivity.
Qed.

(** ** The rule engine *)

Lemma split_at_key c :
  Spec.has_char "|" (Spec.condCodec c) = false ->
  Js.split_at "|" (Spec.key_of c)
  = (Spec.condCodec c,
     [Js.num_toString (Spec.bitrateLow c); Js.num_toString (Spec.bitrateHigh c);
      Js.num_toString (Spec.channelsLow c); Js.num_toString (Spec.channelsHigh c)]).
Proof.
  intros H. unfold Spec.key_of.
  repeat change ("|" ++ ?x) with (String "|" x).
  rewrite (split_at_append _ _ _ H).
  rewrite !(split_append _ _ _ (num_toString_no_bar _)).
  rewrite (split_without _ _ (num_toString_no_bar _)).
  reflexivity.
Qed.

Lemma low_bound_check L x :
  Js.strict_eq (Some (Js.num_toString L)) "0"
  || Js.ge_num x (Js.parseInt (Js.to_string (Some (Js.num_toString L))))
  = (L =? 0) || (L <=? x).
Proof.
  cbn [Js.strict_eq Js.to_string].
  rewrite num_toString_is_0, parseInt_num_toString. reflexivity.
Qed.

Lemma high_bound_check H x :
  Js.strict_eq (Some (Js.num_toString H)) "0"
  || Js.le_num x (Js.parseInt (Js.to_string (Some (Js.num_toString H))))
  = (H =? 0) || (x <=? H).
Proof.
  cbn [Js.strict_eq Js.to_string].
  rewrite num_toString_is_0, parseInt_num_toString. reflexivity.
Qed.

(** On the text of a condition the test of the loop is the condition of
    the specification. *)
Lemma condition_matches_key c inputCodec inputBitrate inputChannels :
  Spec.has_char "|" (Spec.condCodec c) = false ->
  condition_matches (Spec.key_of c) inputCodec inputBitrate inputChannels
  = Spec.holds c inputCodec inputBitrate inputChannels.
Proof.
  intros H. unfold condition_matches. rewrite (split_at_key c H).
  cbn [nth_error].
  rewrite !low_bound_check, !high_bound_check.
  unfold Spec.holds, Spec.codec_ok, Spec.within.
  rewrite !andb_assoc. reflexivity.
Qed.

Lemma within_at_bounds L H : L <= H ->
  Spec.within L H L = true /\ Spec.within L H H = true.
Proof.
  intros Hle. unfold Spec.within.
  rewrite (Z.leb_refl L), (Z.leb_refl H), !orb_true_r.
  apply Z.leb_le in Hle. rewrite Hle, !orb_true_r. auto.
Qed.

(** The all-wildcard key passes the test of the loop for every input. *)
Lemma fallback_key_matches inputCodec inputBitrate inputChannels :
  condition_matches FALLBACK_KEY inputCodec inputBitrate inputChannels = true.
Proof.
  unfold condition_matches, FALLBACK_KEY. cbn.
  rewrite orb_true_r. reflexivity.
Qed.

(** So when the loop finds nothing the matrix has no entry under that
    key, and the lookup after the loop finds nothing either. *)
Lemma find_loop_none_no_fallback m inputCodec inputBitrate inputChannels :
  find_loop m inputCodec inputBitrate inputChannels = None ->
  map_get FALLBACK_KEY m = None.
Proof.
  induction m as [|[k p] m IH]; simpl; [reflexivity|].
  destruct (condition_matches k inputCodec inputBitrate inputChannels) eqn:E;
    [discriminate|].
  intros Hnone. destruct (String.eqb_spec k FALLBACK_KEY) as [->|_].
  - rewrite fallback_key_matches in E. discriminate.
  - apply IH, Hnone.
Qed.

Lemma findConversion_is_loop m inputCodec inputBitrate inputChannels :
  findConversion m inputCodec inputBitrate inputChannels
  = find_loop m inputCodec inputBitrate inputChannels.
Proof.
  unfold findConversion.
  destruct (find_loop m inputCodec inputBitrate inputChannels) eqn:E;
    [reflexivity|].
  rewrite (find_loop_none_no_fallback _ _ _ _ E). reflexivity.
Qed.

Lemma find_loop_first_entry m inputCodec inputBitrate inputChannels :
  find_loop m inputCodec inputBitrate inputChannels
  = match first_entry m inputCodec inputBitrate inputChannels with
    | Some e => Some (resolve_copy (snd e) inputCodec inputBitrate inputChannels)
    | None => None
    end.
Proof.
  unfold first_entry.
  induction m as [|[k p] m IH]; simpl; [reflexivity|].
  destruct (condition_matches k inputCodec inputBitrate inputChannels);
    [reflexivity|apply IH].
Qed.

Lemma find_loop_table rules inputCodec inputBitrate inputChannels :
  Forall (fun r => Spec.has_char "|" (Spec.condCodec (fst r)) = false) rules ->
  find_loop (Spec.table rules) inputCodec inputBitrate inputChannels
  = match Spec.first_match rules inputCodec inputBitrate inputChannels with
    | Some r => Some (resolve_copy (snd r) inputCodec inputBitrate inputChannels)
    | None => None
    end.
Proof.
  induction 1 as [|[c a] rules Hc _ IH]; simpl; [reflexivity|].
  simpl in Hc. rewrite (condition_matches_key _ _ _ _ Hc).
  destruct (Spec.holds c inputCodec inputBitrate inputChannels);
    [reflexivity|apply IH].
Qed.

(** C1. For every rule table and every input, [findConversion] returns the
    action of the first rule, in declaration order, whose condition
    holds: the stored action itself, or, when its codec says copy, the
    identity action of C6; and nothing when no condition holds. A
    condition holds when its codec is the input codec up to letter case
    or is the wildcard 0, and the bit rate and the channel count lie
    within their inclusive bounds, 0 leaving a side open. A rule with
    bounds L <= H accepts the inputs L and H themselves. The table is the
    matrix whose keys are the conditions in the text format of the
    program; a codec in a condition has no field separator in it, and
    bounds and inputs are safe integers. *)
Theorem findConversion_first_match
    (rules : list Spec.ConversionRule) (inputCodec : string)
    (inputBitrate inputChannels : Z) :
  Forall safe_rule rules ->
  safe_integer inputBitrate ->
  safe_integer inputChannels ->
  findConversion (Spec.table rules) inputCodec inputBitrate inputChannels
  = match Spec.first_match rules inputCodec inputBitrate inputChannels with
    | Some r =>
        if String.eqb (Js.toLowerCase (codec (snd r))) "copy"
        then Some (mkProfile inputCodec (Js.num_toString inputBitrate)
                             (Js.num_toString inputChannels))
        else Some (snd r)
    | None => None
    end
  /\ (forall r, In r rules ->
        Spec.bitrateLow (fst r) <= Spec.bitrateHigh (fst r) ->
        Spec.codec_ok (fst r) inputCodec = true ->
        Spec.within (Spec.channelsLow (fst r)) (Spec.channelsHigh (fst r))
                    inputChannels = true ->
        condition_matches (Spec.key_of (fst r)) inputCodec
                          (Spec.bitrateLow (fst r)) inputChannels = true
        /\ condition_matches (Spec.key_of (fst r)) inputCodec
                             (Spec.bitrateHigh (fst r)) inputChannels = true).
Proof.
  intros Hsafe _ _.
  assert (Hwf : Forall (fun r => Spec.has_char "|" (Spec.condCodec (fst r)) = false)
                  rules).
  { eapply List.Forall_impl; [|exact Hsafe]. intros r Hr. exact (proj1 Hr). }
  split.
  - rewrite findConversion_is_loop, (find_loop_table _ _ _ _ Hwf).
    destruct (Spec.first_match rules inputCodec inputBitrate inputChannels)
      as [r|]; [|reflexivity].
    unfold resolve_copy.
    destruct (String.eqb (Js.toLowerCase (codec (snd r))) "copy"); reflexivity.
  - intros r Hin Hle Hcodec Hch.
    pose proof (proj1 (List.Forall_forall _ _) Hwf r Hin) as Hr. cbv beta in Hr.
    rewrite !(condition_matches_key _ _ _ _ Hr). unfold Spec.holds.
    destruct (within_at_bounds _ _ Hle) as [HL HH].
    rewrite Hcodec, Hch, HL, HH. auto.
Qed.

Lemma findConversion_first_match_witness :
  findConversion (Spec.table readme_rules) "mp3" 32000 1
  = Some (mkProfile "opus" "24000" "1")
  /\ findConversion (Spec.table readme_rules) "MP3" 72000 2
     = Some (mkProfile "MP3" "72000" "2")
  /\ findConversion (Spec.table readme_rules) "flac" 500000 2
     = Some (mkProfile "opus" "64000" "2")
  /\ condition_matches "mp3|48000|72000|0|0" "MP3" 48000 2 = true.
Proof.
  assert (Hsafe : Forall safe_rule readme_rules).
  { repeat constructor; simpl; lia. }
  assert (Hin : forall n, 0 <= n <= 1000000 -> safe_integer n).
  { intros n Hn. unfold safe_integer. lia. }
  destruct (findConversion_first_match readme_rules "mp3" 32000 1 Hsafe
              (Hin 32000 ltac:(lia)) (Hin 1 ltac:(lia))) as [Hstored _].
  destruct (findConversion_first_match readme_rules "MP3" 72000 2 Hsafe
              (Hin 72000 ltac:(lia)) (Hin 2 ltac:(lia))) as [Hcopy Hb].
  destruct (findConversion_first_match readme_rules "flac" 500000 2 Hsafe
              (Hin 500000 ltac:(lia)) (Hin 2 ltac:(lia))) as [Hlast _].
  split; [rewrite Hstored; reflexivity|].
  split; [rewrite Hcopy; reflexivity|].
  split; [rewrite Hlast; reflexivity|].
  apply (Hb (Spec.mkCondition "mp3" 48000 72000 0 0, mkProfile "copy" "0" "0")).
  - simpl. auto.
  - simpl. lia.
  - reflexivity.
  - reflexivity.
Defined.

(** C6. Whenever the entry that decides the result, the first one that
    matches or the fallback consulted after the loop, has an action whose
    codec is the copy sentinel (in any letter case), [findConversion]
    returns exactly the input codec with the decimal numerals of the input
    bit rate and channel count, and nothing of what the table stores.
    The bit rate and the channel count are safe integers, the numbers
    that the program writes as plain decimal numerals.
    (By [find_loop_none_no_fallback] the deciding entry is in fact always
    the first one that matches.) *)
Theorem copy_resolves_to_input
    (m : ConversionMatrix) (inputCodec : string) (inputBitrate inputChannels : Z)
    (e : string * ConversionProfile) :
  safe_integer inputBitrate ->
  safe_integer inputChannels ->
  first_entry m inputCodec inputBitrate inputChannels = Some e
  \/ (first_entry m inputCodec inputBitrate inputChannels = None
      /\ map_get FALLBACK_KEY m = Some (snd e)) ->
  String.eqb (Js.toLowerCase (codec (snd e))) "copy" = true ->
  findConversion m inputCodec inputBitrate inputChannels
  = Some (mkProfile inputCodec (Js.num_toString inputBitrate)
                    (Js.num_toString inputChannels))
  /\ Js.parseInt (Js.num_toString inputBitrate) = Some inputBitrate
  /\ Js.parseInt (Js.num_toString inputChannels) = Some inputChannels.
Proof.
  intros _ _ Hsel Hcopy. split; [|split; apply parseInt_num_toString].
  unfold findConversion. rewrite find_loop_first_entry.
  destruct Hsel as [-> | [-> ->]]; unfold resolve_copy; rewrite Hcopy; reflexivity.
Qed.

Lemma copy_resolves_to_input_witness :
  findConversion [("0|0|0|0|0", mkProfile "Copy" "0" "0")] "flac" 900000 2
  = Some (mkProfile "flac" "900000" "2")
  /\ Js.parseInt (Js.num_toString 900000) = Some 900000
  /\ Js.parseInt (Js.num_toString 2) = Some 2.
Proof.
  apply (copy_resolves_to_input
           [("0|0|0|0|0", mkProfile "Copy" "0" "0")] "flac" 900000 2
           ("0|0|0|0|0", mkProfile "Copy" "0" "0")).
  - unfold safe_integer. lia.
  - unfold safe_integer. lia.
  - left. reflexivity.
  - reflexivity.
Defined.

(** An entry under the all-wildcard key stops the loop where it stands,
    whatever follows it. *)
Lemma fallback_entry_stops_loop p m inputCodec inputBitrate inputChannels :
  findConversion ((FALLBACK_KEY, p) :: m) inputCodec inputBitrate inputChannels
  = Some (resolve_copy p inputCodec inputBitrate inputChannels).
Proof.
  rewrite findConversion_is_loop. cbn [find_loop].
  rewrite fallback_key_matches. reflexivity.
Qed.

(** C2. A bare fallback item written before an explicit rule is found by
    the loop first, because the loop runs over every entry and the
    all-wildcard key passes its test: the input (mp3, 128000, 2), which
    the explicit rule matches, receives the fallback action. *)
Theorem fallback_written_first_wins :
  exists m,
    parseConversionMatrix "opus|64000|2,mp3|0|0|0|0=aac|128000|2" = Ok m
    /\ m = [("0|0|0|0|0", mkProfile "opus" "64000" "2");
            ("mp3|0|0|0|0", mkProfile "aac" "128000" "2")]
    /\ condition_matches "mp3|0|0|0|0" "mp3" 128000 2 = true
    /\ findConversion m "mp3" 128000 2 = Some (mkProfile "opus" "64000" "2").
Proof.
  eexists. split; [vm_compute; reflexivity|]. repeat split.
Qed.

(** An item whose action has no field separator at all makes the body of
    the loop throw, whatever was parsed before. *)
Lemma parse_rule_short_action rule condition result rest m :
  Js.split_at "=" rule = (condition, result :: rest) ->
  Js.truthy condition = true ->
  Js.truthy result = true ->
  Spec.has_char "|" result = false ->
  parse_rule rule m
  = Throw (TypeError "Cannot read properties of undefined (reading 'trim')").
Proof.
  intros Hsplit Hc Hr Hbar. unfold parse_rule. rewrite Hsplit.
  cbn [nth_error Js.truthy_opt Js.to_string]. rewrite Hc, Hr. cbn [andb].
  rewrite (split_at_without _ _ Hbar). reflexivity.
Qed.

(** C3. An item with a condition and an action of fewer than three fields
    makes the parser throw, and the items parsed before it are lost with
    it; the branch of the bare item tests its three fields and skips. *)
Theorem parse_short_action_throws :
  parseConversionMatrix "x=opus"
  = Throw (TypeError "Cannot read properties of undefined (reading 'trim')")
  /\ parseConversionMatrix "mp3|0|0|0|0=aac|128000|2,x=opus|64000"
     = Throw (TypeError "Cannot read properties of undefined (reading 'trim')")
  /\ parseConversionMatrix "opus|64000" = Ok [].
Proof. repeat split. Qed.

(** ** The excluded codecs *)

Lemma lower_char_comma c : Ascii.eqb (Js.lower_char c) "," = Ascii.eqb c ",".
Proof. destruct c as [[] [] [] [] [] [] [] []]; reflexivity. Qed.

Lemma split_at_toLowerCase s :
  Js.split_at "," (Js.toLowerCase s)
  = (Js.toLowerCase (fst (Js.split_at "," s)),
     map Js.toLowerCase (snd (Js.split_at "," s))).
Proof.
  induction s as [|c r IH]; simpl; [reflexivity|].
  rewrite IH, lower_char_comma.
  destruct (Js.split_at "," r) as [h t]. simpl.
  destruct (Ascii.eqb c ","); reflexivity.
Qed.

Lemma split_toLowerCase s :
  Js.split "," (Js.toLowerCase s) = map Js.toLowerCase (Js.split "," s).
Proof.
  unfold Js.split. rewrite split_at_toLowerCase.
  destruct (Js.split_at "," s); reflexivity.
Qed.

Lemma existsb_eqb_In x l : existsb (String.eqb x) l = true <-> In x l.
Proof.
  rewrite existsb_exists. split.
  - intros (y & Hin & Heq). apply String.eqb_eq in Heq. subst. exact Hin.
  - intros Hin. exists x. split; [exact Hin|apply String.eqb_refl].
Qed.

(** C10. The exclusion test sees the codec of the item and the configured
    list only through their lower-case forms: an item is excluded exactly
    when the lower-case form of its codec is one of the configured codecs
    in lower case, so two codecs, or two configured lists, that differ in
    letter case only give the same answer. *)
Theorem exclusion_ignores_letter_case (base : Config) (v : option string) :
  (forall codec,
      is_excluded (cfg_of_env v base) codec = true
      <-> In (Js.toLowerCase codec)
             (map Js.toLowerCase (Js.split "," (env_or v "opus"))))
  /\ (forall codec codec',
        Js.toLowerCase codec = Js.toLowerCase codec' ->
        is_excluded (cfg_of_env v base) codec
        = is_excluded (cfg_of_env v base) codec')
  /\ (forall v' codec,
        Js.toLowerCase (env_or v "opus") = Js.toLowerCase (env_or v' "opus") ->
        is_excluded (cfg_of_env v base) codec
        = is_excluded (cfg_of_env v' base) codec).
Proof.
  repeat split.
  - unfold is_excluded. cbn [EXCLUDED_CODECS cfg_of_env].
    unfold excluded_codecs_of_env. rewrite split_toLowerCase.
    apply existsb_eqb_In.
  - unfold is_excluded. cbn [EXCLUDED_CODECS cfg_of_env].
    unfold excluded_codecs_of_env. rewrite split_toLowerCase.
    apply existsb_eqb_In.
  - intros codec codec' H. unfold is_excluded. rewrite H. reflexivity.
  - intros v' codec H. unfold is_excluded. cbn [EXCLUDED_CODECS cfg_of_env].
    unfold excluded_codecs_of_env. rewrite H. reflexivity.
Qed.

Lemma exclusion_ignores_letter_case_witness :
  is_excluded (cfg_of_env (Some "AAC,Opus") (mkConfig 1 15000 false false [] []))
              "OPUS"
  = is_excluded (cfg_of_env (Some "aac,opus") (mkConfig 1 15000 false false [] []))
                "opus".
Proof.
  destruct (exclusion_ignores_letter_case
              (mkConfig 1 15000 false false [] []) (Some "AAC,Opus"))
    as (_ & Hcodec & Hlist).
  rewrite (Hcodec "OPUS" "opus" eq_refl).
  apply (Hlist (Some "aac,opus") "opus" eq_refl).
Defined.

(** ** The dispatcher *)

Section DispatchFacts.

Variable cfg : Config.

Lemma shutdown_keeps st :
  encodingQueue (shutdown st) = encodingQueue st
  /\ runningEncodings (shutdown st) = runningEncodings st
  /\ suspended (shutdown st) = suspended st.
Proof.
  destruct st as [q r w rt sus ex cs]. unfold shutdown.
  destruct rt, w, q; simpl; auto.
Qed.

(** An invocation leaves the counter alone or, below the limit, adds one. *)
Lemma processEncodingQueue_running st :
  runningEncodings (processEncodingQueue cfg st) = runningEncodings st
  \/ (runningEncodings st < MAX_PARALLEL cfg
      /\ runningEncodings (processEncodingQueue cfg st) = runningEncodings st + 1).
Proof.
  unfold processEncodingQueue.
  destruct (exited st); [auto|].
  destruct (encodingQueue st) as [|itemId rest] eqn:Eq.
  - destruct (DRY_RUN cfg); [|auto]. left. apply shutdown_keeps.
  - destruct (Z.leb_spec (MAX_PARALLEL cfg) (runningEncodings st)); [auto|].
    destruct (Js.truthy itemId); simpl; auto.
Qed.

Lemma processEncodingQueue_le K st :
  MAX_PARALLEL cfg <= K ->
  runningEncodings st <= K ->
  runningEncodings (processEncodingQueue cfg st) <= K.
Proof.
  intros HK H. destruct (processEncodingQueue_running st) as [->|[? ->]]; lia.
Qed.



Lemma iter_processEncodingQueue_le K n st :
  MAX_PARALLEL cfg <= K ->
  runningEncodings st <= K ->
  runningEncodings (Nat.iter n (processEncodingQueue cfg) st) <= K.
Proof.
  intros HK H. induction n as [|n IH]; simpl; [exact H|].
  apply processEncodingQueue_le; assumption.
Qed.


Lemma skip_le K st :
  MAX_PARALLEL cfg <= K ->
  runningEncodings st <= K -> runningEncodings (skip cfg st) <= K.
Proof.
  intros HK H. unfold skip. apply processEncodingQueue_le; [exact HK|].
  simpl. lia.
Qed.

Lemma after_getItemDetails_le K itemId r st :
  MAX_PARALLEL cfg <= K ->
  runningEncodings st <= K ->
  runningEncodings (after_getItemDetails cfg itemId r st) <= K.
Proof.
  intros HK H. unfold after_getItemDetails.
  destruct r as [d|e]; [|apply skip_le; assumption].
  destruct (media d) as [[[[|af afs]|]]|]; cbn [audioFiles];
    try (apply skip_le; assumption).
  destruct (is_excluded cfg (af_codec af)); [apply skip_le; assumption|].
  destruct (findConversion _ _ _ _); [exact H|apply skip_le; assumption].
Qed.

Lemma after_startM4bEncoding_le K itemId r st :
  MAX_PARALLEL cfg <= K ->
  runningEncodings st <= K ->
  runningEncodings (after_startM4bEncoding cfg itemId r st) <= K.
Proof.
  intros HK H. destruct r; [exact H|apply skip_le; assumption].
Qed.

Lemma step_le st ev :
  is_completion ev = false ->
  resync_within (MAX_PARALLEL cfg) ev = true ->
  runningEncodings st <= MAX_PARALLEL cfg ->
  runningEncodings (step cfg st ev) <= MAX_PARALLEL cfg.
Proof.
  intros Hc Hr H. unfold step. destruct (exited st); [exact H|].
  destruct ev as [|i r|i r|i r|name payload].
  - apply processEncodingQueue_le; [lia|exact H].
  - destruct (suspended st !! i) as [[]|]; try exact H.
    apply after_getItemDetails_le; [lia|exact H].
  - destruct (suspended st !! i) as [[]|]; try exact H.
    apply after_startM4bEncoding_le; [lia|exact H].
  - destruct (suspended st !! i) as [[]|]; try exact H.
    destruct r as [n|e]; [|exact H].
    simpl in Hr |- *. lia.
  - simpl in Hc. unfold handleSocketIoEvent. rewrite Hc.
    destruct (String.eqb name "item_added"); [|exact H].
    destruct (Js.truthy_opt (payload_id payload)); exact H.
Qed.

Lemma run_le st evs :
  Forall (fun ev => is_completion ev = false
                    /\ resync_within (MAX_PARALLEL cfg) ev = true) evs ->
  runningEncodings st <= MAX_PARALLEL cfg ->
  runningEncodings (run cfg st evs) <= MAX_PARALLEL cfg.
Proof.
  intros Hevs. revert st.
  induction Hevs as [|ev evs [Hc Hr] _ IH]; intros st H; simpl; [exact H|].
  apply IH, step_le; assumption.
Qed.

Lemma processEncodingQueue_at_limit st :
  MAX_PARALLEL cfg <= runningEncodings st ->
  encodingQueue (processEncodingQueue cfg st) = encodingQueue st
  /\ runningEncodings (processEncodingQueue cfg st) = runningEncodings st
  /\ (encodingQueue st <> [] -> processEncodingQueue cfg st = st).
Proof.
  intros H. unfold processEncodingQueue.
  destruct (exited st); [auto|].
  destruct (encodingQueue st) as [|itemId rest] eqn:Eq.
  - destruct (DRY_RUN cfg).
    + destruct (shutdown_keeps st) as (-> & -> & _). rewrite Eq.
      split; [reflexivity|]. split; [reflexivity|]. intros Hne. congruence.
    + split; [exact Eq|]. split; [reflexivity|]. intros Hne. congruence.
  - apply Z.leb_le in H. rewrite H. auto.
Qed.

End DispatchFacts.

(** C4, as amended. From [runningEncodings = 0], a queue of any length and
    a limit of at least 1, no sequence of scheduler turns without a
    completion signal takes the counter above the limit, as long as every
    successful resynchronisation reports at most that many jobs; and an
    invocation that finds the counter at the limit leaves queue and
    counter as they are (the whole state when the queue is not empty). *)
Theorem dispatch_never_exceeds_limit
    (cfg : Config) (q : list string) (evs : list Event) :
  1 <= MAX_PARALLEL cfg ->
  Forall (fun ev => is_completion ev = false
                    /\ resync_within (MAX_PARALLEL cfg) ev = true) evs ->
  runningEncodings (run cfg (new_client q) evs) <= MAX_PARALLEL cfg
  /\ (forall st,
        MAX_PARALLEL cfg <= runningEncodings st ->
        encodingQueue (processEncodingQueue cfg st) = encodingQueue st
        /\ runningEncodings (processEncodingQueue cfg st) = runningEncodings st
        /\ (encodingQueue st <> [] -> processEncodingQueue cfg st = st)).
Proof.
  intros HK Hevs. split.
  - apply run_le; [exact Hevs|]. simpl. lia.
  - intros st. apply processEncodingQueue_at_limit.
Qed.

Lemma dispatch_never_exceeds_limit_witness :
  runningEncodings
    (run default_cfg (new_client ["a"; "b"])
       [DispatchTimer; DispatchTimer;
        ItemDetailsSettled 0 (Ok (mp3_item "a"));
        StartEncodingSettled 0 (Ok tt);
        GetTasksSettled 0 (Ok 1);
        DispatchTimer])
  <= 1.
Proof.
  refine (proj1 (dispatch_never_exceeds_limit default_cfg ["a"; "b"] _ _ _)).
  - simpl. lia.
  - repeat constructor.
Defined.

(** C4, as stated, fails: the resynchronisation after a successful start
    stores whatever count the control plane reports. One attempt, limit 1,
    no completion signal, and the counter is 2. *)
Lemma resync_exceeds_limit :
  ~ (forall (cfg : Config) (q : list string) (evs : list Event),
        1 <= MAX_PARALLEL cfg ->
        Forall (fun ev => is_completion ev = false) evs ->
        runningEncodings (run cfg (new_client q) evs) <= MAX_PARALLEL cfg).
Proof.
  intros H.
  specialize (H default_cfg ["a"]
                [DispatchTimer;
                 ItemDetailsSettled 0 (Ok (mp3_item "a"));
                 StartEncodingSettled 0 (Ok tt);
                 GetTasksSettled 0 (Ok 2)]).
  assert (Hbad : runningEncodings
                   (run default_cfg (new_client ["a"])
                      [DispatchTimer;
                       ItemDetailsSettled 0 (Ok (mp3_item "a"));
                       StartEncodingSettled 0 (Ok tt);
                       GetTasksSettled 0 (Ok 2)]) = 2) by reflexivity.
  rewrite Hbad in H. simpl in H.
  assert (2 <= 1) by (apply H; [lia|repeat constructor]). lia.
Qed.




Lemma shutdown_calls_eq st :
  calls (shutdown st) = (calls st ++ shutdown_calls st)%list.
Proof.
  destruct st as [q r w rt sus ex cs]. unfold shutdown, shutdown_calls.
  destruct rt, w, q; simpl; rewrite <- ?app_assoc, ?app_nil_r; reflexivity.
Qed.

(** What [shutdown] calls is no call on the rule engine or the encoder. *)
Lemma shutdown_calls_quiet st :
  Forall (fun c => is_rule_or_encode c = false) (shutdown_calls st).
Proof.
  unfold shutdown_calls.
  destruct (reconnectTimeout st), (ws st), (encodingQueue st);
    repeat constructor.
Qed.

(** One excluded entry: the timer's invocation takes it, the answer of
    [getItemDetails] skips it, and the skip is the next invocation. *)
Lemma drain_one cfg st itemId q d :
  exited st = false ->
  suspended st = [] ->
  runningEncodings st < MAX_PARALLEL cfg ->
  encodingQueue st = itemId :: q ->
  Js.truthy itemId = true ->
  first_file_excluded cfg d = true ->
  step cfg (step cfg st DispatchTimer) (ItemDetailsSettled 0 (Ok d))
  = step cfg
      (mkClient q (runningEncodings st) (ws st) (reconnectTimeout st) [] false
                (calls st ++ [ApiGetItemDetails itemId]))
      DispatchTimer.
Proof.
  destruct st as [q0 r w rt sus ex cs]. simpl.
  intros -> -> Hlt -> Hid Hex.
  apply Z.leb_gt in Hlt.
  unfold step at 2. cbn [exited]. unfold processEncodingQueue at 1.
  cbn [exited encodingQueue runningEncodings]. rewrite Hlt, Hid.
  cbn [negb]. unfold step at 1.
  cbn -[processEncodingQueue Z.add Z.sub].
  unfold after_getItemDetails.
  unfold first_file_excluded in Hex.
  destruct (media d) as [[[[|af afs]|]]|]; cbn [audioFiles] in *;
    try discriminate Hex.
  rewrite Hex. unfold skip, decr, set_running, set_suspended.
  cbn -[processEncodingQueue Z.add Z.sub].
  rewrite Z.add_simpl_r. reflexivity.
Qed.

(** C7. A queue whose entries all have an excluded codec drains through
    one timer invocation and the answers of [getItemDetails] alone, with
    no event from the socket: the queue ends empty, the counter where it
    was, nothing suspended, and the only calls made are one
    [getItemDetails] per entry (and those of [shutdown] under DRY_RUN),
    none on the rule engine or the encoder. *)
Theorem excluded_queue_drains
    (cfg : Config) (st : Client) (ds : list AbsItemDetails) :
  exited st = false ->
  suspended st = [] ->
  runningEncodings st < MAX_PARALLEL cfg ->
  Forall (fun itemId => Js.truthy itemId = true) (encodingQueue st) ->
  length ds = length (encodingQueue st) ->
  Forall (fun d => first_file_excluded cfg d = true) ds ->
  let st' :=
    run cfg st (DispatchTimer :: map (fun d => ItemDetailsSettled 0 (Ok d)) ds) in
  st' = (if DRY_RUN cfg then shutdown else fun s => s)
          (mkClient [] (runningEncodings st) (ws st) (reconnectTimeout st) []
                    false (calls st ++ map ApiGetItemDetails (encodingQueue st)))
  /\ encodingQueue st' = []
  /\ runningEncodings st' = runningEncodings st
  /\ suspended st' = []
  /\ (Forall (fun c => is_rule_or_encode c = false) (calls st) ->
      Forall (fun c => is_rule_or_encode c = false) (calls st')).
Proof.
  intros Hex Hsus Hlt Hids Hlen Hds.
  assert (Heq :
    run cfg st (DispatchTimer :: map (fun d => ItemDetailsSettled 0 (Ok d)) ds)
    = (if DRY_RUN cfg then shutdown else fun s => s)
        (mkClient [] (runningEncodings st) (ws st) (reconnectTimeout st) []
                  false (calls st ++ map ApiGetItemDetails (encodingQueue st)))).
  { revert st Hex Hsus Hlt Hids Hlen.
    induction Hds as [|d ds Hd _ IH]; intros st Hex Hsus Hlt Hids Hlen.
    - destruct st as [q r w rt sus ex cs]. simpl in *. subst.
      destruct q; [|discriminate Hlen].
      unfold step, processEncodingQueue. simpl. rewrite app_nil_r.
      destruct (DRY_RUN cfg); reflexivity.
    - destruct (encodingQueue st) as [|itemId q] eqn:Eq; [discriminate Hlen|].
      apply Forall_cons_1 in Hids as [Hid Hq].
      cbn [map]. unfold run. cbn [fold_left].
      rewrite (drain_one cfg st itemId q d Hex Hsus Hlt Eq Hid Hd).
      specialize (IH (mkClient q (runningEncodings st) (ws st)
                        (reconnectTimeout st) [] false
                        (calls st ++ [ApiGetItemDetails itemId]))).
      unfold run in IH. cbn [fold_left] in IH.
      rewrite IH; cbn [exited suspended runningEncodings encodingQueue
                        ws reconnectTimeout calls]; auto.
      rewrite <- app_assoc. reflexivity. }
  cbv zeta. rewrite Heq.
  set (done := mkClient [] (runningEncodings st) (ws st) (reconnectTimeout st)
                 [] false (calls st ++ map ApiGetItemDetails (encodingQueue st))).
  destruct (DRY_RUN cfg).
  - destruct (shutdown_keeps done) as (-> & -> & ->).
    split; [reflexivity|]. repeat (split; [reflexivity|]).
    intros Hcalls. rewrite shutdown_calls_eq.
    apply Forall_app. split; [|apply shutdown_calls_quiet].
    subst done. cbn [calls]. apply Forall_app. split; [exact Hcalls|].
    apply Forall_forall. intros c Hin. apply list_elem_of_In in Hin.
    apply in_map_iff in Hin as (x & <- & _). reflexivity.
  - split; [reflexivity|]. repeat (split; [reflexivity|]).
    intros Hcalls. subst done. cbn [calls]. apply Forall_app.
    split; [exact Hcalls|].
    apply Forall_forall. intros c Hin. apply list_elem_of_In in Hin.
    apply in_map_iff in Hin as (x & <- & _). reflexivity.
Qed.

Lemma excluded_queue_drains_witness :
  encodingQueue
    (run default_cfg (new_client ["a"; "b"; "c"])
       (DispatchTimer
          :: map (fun d => ItemDetailsSettled 0 (Ok d))
               [opus_item "a"; opus_item "b"; opus_item "c"])) = [].
Proof.
  refine (proj1 (proj2 (excluded_queue_drains default_cfg
                          (new_client ["a"; "b"; "c"])
                          [opus_item "a"; opus_item "b"; opus_item "c"]
                          _ _ _ _ _ _))).
  - reflexivity.
  - reflexivity.
  - simpl. lia.
  - repeat constructor.
  - reflexivity.
  - repeat constructor.
Defined.

(** An invocation never puts an entry into the queue: it leaves the queue
    or takes its head. *)
Lemma processEncodingQueue_queue cfg st :
  exists taken,
    encodingQueue st = (taken ++ encodingQueue (processEncodingQueue cfg st))%list.
Proof.
  unfold processEncodingQueue.
  destruct (exited st); [exists []; reflexivity|].
  destruct (encodingQueue st) as [|itemId rest] eqn:Eq.
  - exists []. destruct (DRY_RUN cfg); [|simpl; auto].
    destruct (shutdown_keeps st) as (-> & _). simpl. auto.
  - destruct (MAX_PARALLEL cfg <=? runningEncodings st);
      [exists []; simpl; auto|].
    exists [itemId]. destruct (Js.truthy itemId); reflexivity.
Qed.

(** C8. When [getItemDetails] or [startM4bEncoding] fails, the attempt
    ends: its entry, taken from the queue when the attempt began, is not
    put back, the counter goes down by one, once, and the next invocation
    of [processEncodingQueue] runs at once on that state, taking the next
    entry when there is one and the counter is below the limit. When only
    [getTasks] fails after a successful start, the attempt ends with queue
    and counter as they were. *)
Theorem capability_failure_decrements_once
    (cfg : Config) (st : Client) (i : nat) (itemId : string) (e : JsError) :
  exited st = false ->
  let rest := set_suspended (delete i (suspended st)) st in
  (suspended st !! i = Some (AwaitItemDetails itemId) ->
   step cfg st (ItemDetailsSettled i (Throw e))
   = processEncodingQueue cfg (decr rest))
  /\ (suspended st !! i = Some (AwaitStartEncoding itemId) ->
      step cfg st (StartEncodingSettled i (Throw e))
      = processEncodingQueue cfg (decr rest))
  /\ (suspended st !! i = Some (AwaitGetTasks itemId) ->
      step cfg st (GetTasksSettled i (Throw e)) = rest
      /\ runningEncodings rest = runningEncodings st
      /\ encodingQueue rest = encodingQueue st)
  /\ (forall next q,
        encodingQueue st = next :: q ->
        Js.truthy next = true ->
        runningEncodings st - 1 < MAX_PARALLEL cfg ->
        processEncodingQueue cfg (decr rest)
        = mkClient q (runningEncodings st) (ws st) (reconnectTimeout st)
                   (delete i (suspended st) ++ [AwaitItemDetails next]) false
                   (calls st ++ [ApiGetItemDetails next]))
  /\ (encodingQueue st = [] ->
      runningEncodings (processEncodingQueue cfg (decr rest))
      = runningEncodings st - 1)
  /\ (exists taken,
        encodingQueue st
        = (taken ++ encodingQueue (processEncodingQueue cfg (decr rest)))%list).
Proof.
  intros Hex rest.
  split; [|split; [|split; [|split; [|split]]]].
  - intros Hi. unfold step. rewrite Hex, Hi. reflexivity.
  - intros Hi. unfold step. rewrite Hex, Hi. reflexivity.
  - intros Hi. unfold step. rewrite Hex, Hi. repeat split.
  - intros next q Hq Hnext Hlt. subst rest.
    destruct st as [q0 r w rt sus ex cs]. simpl in *. subst.
    unfold processEncodingQueue. cbn [exited encodingQueue runningEncodings
      decr set_running set_suspended suspended ws reconnectTimeout calls].
    apply Z.leb_gt in Hlt. rewrite Hlt, Hnext. cbn [negb].
    unfold await, call, incr, decr, set_queue, set_running, set_suspended.
    cbn [exited encodingQueue runningEncodings suspended ws reconnectTimeout
         calls].
    rewrite Z.sub_simpl_r. reflexivity.
  - intros Hq. unfold processEncodingQueue.
    replace (exited (decr rest)) with false by (symmetry; exact Hex).
    replace (encodingQueue (decr rest)) with (@nil string)
      by (symmetry; exact Hq).
    destruct (DRY_RUN cfg); [|reflexivity].
    destruct (shutdown_keeps (decr rest)) as (_ & -> & _). reflexivity.
  - apply (processEncodingQueue_queue cfg (decr rest)).
Qed.

Lemma capability_failure_decrements_once_witness :
  step default_cfg
       (mkClient ["b"] 1 WsOpen false [AwaitItemDetails "a"] false
                 [ApiGetItemDetails "a"])
       (ItemDetailsSettled 0 (Throw (TypeError "Network Error")))
  = mkClient [] 1 WsOpen false [AwaitItemDetails "b"] false
             [ApiGetItemDetails "a"; ApiGetItemDetails "b"].
Proof.
  destruct (capability_failure_decrements_once default_cfg
              (mkClient ["b"] 1 WsOpen false [AwaitItemDetails "a"] false
                        [ApiGetItemDetails "a"])
              0 "a" (TypeError "Network Error") eq_refl)
    as (Hfail & _ & _ & Hnext & _).
  rewrite (Hfail eq_refl).
  apply (Hnext "b" []); [reflexivity|reflexivity|simpl; lia].
Defined.

(** Once the process has exited no turn does anything. *)
Lemma turn_exited cfg ABS_TOKEN ENCODE_LIBRARY JSON_parse JSON_stringify st t :
  exited st = true ->
  turn cfg ABS_TOKEN ENCODE_LIBRARY JSON_parse JSON_stringify st t = st.
Proof. intros H. unfold turn. rewrite H. reflexivity. Qed.

Lemma run_turns_exited cfg ABS_TOKEN ENCODE_LIBRARY JSON_parse JSON_stringify ts :
  forall st,
    exited st = true ->
    run_turns cfg ABS_TOKEN ENCODE_LIBRARY JSON_parse JSON_stringify st ts = st.
Proof.
  induction ts as [|t ts IH]; intros st H; [reflexivity|].
  unfold run_turns in *. cbn [fold_left]. rewrite (turn_exited _ _ _ _ _ _ _ H).
  apply IH, H.
Qed.






(** ** The scenarios of the specification *)

Example parse_readme_scenario :
  parseConversionMatrix "0|1|48000|1|1=opus|24000|1,0|0|0|0|0=opus|64000|2"
  = Ok [("0|1|48000|1|1", mkProfile "opus" "24000" "1");
        ("0|0|0|0|0", mkProfile "opus" "64000" "2")].
Proof. reflexivity. Qed.

Example match_readme_scenario :
  forall m,
    parseConversionMatrix "0|1|48000|1|1=opus|24000|1,0|0|0|0|0=opus|64000|2"
    = Ok m ->
    findConversion m "mp3" 32000 1 = Some (mkProfile "opus" "24000" "1")
    /\ findConversion m "mp3" 500000 2 = Some (mkProfile "opus" "64000" "2").
Proof. intros m H. injection H as <-. split; reflexivity. Qed.

(** The text of a table and the rules it stands for. *)
Example parse_readme_rules :
  parseConversionMatrix
    "0|1|48000|1|1=opus|24000|1,mp3|48000|72000|0|0=copy|0|0,0|0|0|0|0=opus|64000|2"
  = Ok (Spec.table readme_rules).
Proof. reflexivity. Qed.

Example parse_default_matrix :
  parseConversionMatrix "copy|0|0" = Ok [("0|0|0|0|0", mkProfile "copy" "0" "0")].
Proof. reflexivity. Qed.

(** A condition written twice keeps its first place and its last action. *)
Example parse_repeated_condition :
  parseConversionMatrix "mp3|0|0|0|0=opus|1|1,aac|0|0|0|0=opus|2|2,mp3|0|0|0|0=flac|3|3"
  = Ok [("mp3|0|0|0|0", mkProfile "flac" "3" "3");
        ("aac|0|0|0|0", mkProfile "opus" "2" "2")].
Proof. reflexivity. Qed.

(** An embed request is scheduled only when the option is on. *)
Example task_finished_without_embed :
  handleSocketIoEvent default_cfg "task_finished"
    (mkPayload (Some "t") (Some "encode_m4b") (Some "item-1"))
    (set_running 1 (new_client []))
  = new_client [].
Proof. reflexivity. Qed.

(** * Further properties *)

(** ** config.ts *)

Lemma prefix_split p : forall s,
  String.prefix p s = true -> s = p ++ substring_from (String.length p) s.
Proof.
  induction p as [|c p IH]; intros s H; simpl; [reflexivity|].
  destruct s as [|d s]; simpl in H; [discriminate|].
  destruct (Ascii.ascii_dec c d) as [->|]; [|discriminate].
  f_equal. apply IH, H.
Qed.

Lemma prefix_append p s : String.prefix p (p ++ s) = true.
Proof.
  induction p as [|c p IH]; simpl; [destruct s; reflexivity|].
  destruct (Ascii.ascii_dec c c) as [_|Hne]; [exact IH|contradiction].
Qed.

(** X1. The two addresses derived from the host setting name the same
    host and port, with the secure scheme on both or on neither: the
    WebSocket URL is "ws", then the API base URL from its fifth character
    on, then the Socket.IO path and query; and the API base URL always
    begins with [http://] or [https://]. *)
Theorem websocket_url_follows_api_url (ABS_HOST_RAW : string) :
  getWebSocketUrl ABS_HOST_RAW
  = "ws" ++ substring_from 4 (getApiBaseUrl ABS_HOST_RAW) ++ SOCKET_IO_QUERY
  /\ (startsWith (getApiBaseUrl ABS_HOST_RAW) "http://"
      || startsWith (getApiBaseUrl ABS_HOST_RAW) "https://") = true.
Proof.
  unfold getWebSocketUrl, getApiBaseUrl, startsWith.
  destruct (String.prefix "http://" ABS_HOST_RAW) eqn:Ehttp; cbn [orb].
  - rewrite Ehttp. split; [|reflexivity].
    rewrite (prefix_split _ _ Ehttp) at 2. reflexivity.
  - destruct (String.prefix "https://" ABS_HOST_RAW) eqn:Ehttps.
    + rewrite Ehttps. split; [|apply orb_true_r].
      rewrite (prefix_split _ _ Ehttps) at 2. reflexivity.
    + split; [reflexivity|]. rewrite prefix_append. reflexivity.
Qed.

(** ** Numerals read with radix 10 *)

Lemma digits_acc_app s rest : forall acc,
  all_digits s = true ->
  Js.digits 10 rest = None \/ rest = EmptyString ->
  Js.digits_acc 10 (s ++ rest) acc = Js.digits_acc 10 s acc.
Proof.
  induction s as [|c s IH]; intros acc Hs Hrest; simpl.
  - destruct rest as [|d rest]; [reflexivity|].
    destruct Hrest as [Hrest|Hrest]; [|discriminate Hrest].
    simpl in Hrest |- *. destruct (Js.digit_val 10 d); [discriminate|reflexivity].
  - simpl in Hs. apply andb_true_iff in Hs as [Hc Hs].
    destruct (Js.digit_val 10 c); [apply IH; assumption|reflexivity].
Qed.

Lemma parseInt_radix10_digits c r rest :
  is_digit c = true -> all_digits r = true ->
  Js.digits 10 rest = None \/ rest = EmptyString ->
  parseInt_radix10 (String c r ++ rest)
  = Some (Js.digits_acc 10 (String c r) 0).
Proof.
  intros Hc Hr Hrest.
  destruct (digit_facts c Hc) as (Hsp & Hm & Hp & _ & _ & _ & d & Hd).
  unfold parseInt_radix10. cbn [String.append Js.trimStart]. rewrite Hsp.
  cbn [Js.strip_sign]. rewrite Hm, Hp. cbv beta iota.
  unfold Js.digits. rewrite Hd.
  change (String c (r ++ rest)) with (String c r ++ rest).
  rewrite digits_acc_app; [reflexivity| |exact Hrest].
  simpl. rewrite Hc, Hr. reflexivity.
Qed.

Lemma parseInt_radix10_minus_digits c r rest :
  is_digit c = true -> all_digits r = true ->
  Js.digits 10 rest = None \/ rest = EmptyString ->
  parseInt_radix10 (String "-" (String c r) ++ rest)
  = Some (- Js.digits_acc 10 (String c r) 0).
Proof.
  intros Hc Hr Hrest.
  destruct (digit_facts c Hc) as (Hsp & Hm & Hp & _ & _ & _ & d & Hd).
  unfold parseInt_radix10. cbn [String.append].
  change (Js.trimStart (String "-" (String c (r ++ rest))))
    with (String "-" (String c (r ++ rest))).
  change (Js.strip_sign (String "-" (String c (r ++ rest))))
    with (true, String c (r ++ rest)).
  cbv beta iota. unfold Js.digits. rewrite Hd.
  change (String c (r ++ rest)) with (String c r ++ rest).
  rewrite digits_acc_app; [reflexivity| |exact Hrest].
  simpl. rewrite Hc, Hr. reflexivity.
Qed.

Lemma parseInt_radix10_numeral n rest :
  Js.digits 10 rest = None \/ rest = EmptyString ->
  parseInt_radix10 (Js.num_toString n ++ rest) = Some n.
Proof.
  intros Hrest. destruct n as [|p|p]; unfold Js.num_toString;
    cbn [Z.to_int NilZero.string_of_int].
  - apply (parseInt_radix10_digits "0" EmptyString rest); auto.
  - destruct (pos_numeral p) as (c & r & -> & Hc & Hr & Hv).
    rewrite (parseInt_radix10_digits c r rest Hc Hr Hrest), Hv. reflexivity.
  - destruct (pos_numeral p) as (c & r & -> & Hc & Hr & Hv).
    rewrite (parseInt_radix10_minus_digits c r rest Hc Hr Hrest), Hv.
    reflexivity.
Qed.

Lemma num_toString_truthy n : Js.truthy (Js.num_toString n) = true.
Proof.
  destruct n as [|p|p]; [reflexivity| |reflexivity].
  unfold Js.num_toString. simpl.
  destruct (pos_numeral p) as (c & r & -> & _). reflexivity.
Qed.

(** X2. A numeric setting read from the environment is the number whose
    decimal numeral the variable holds, for a safe integer, whatever
    follows the numeral as long as it does not begin with a digit; unset
    or empty, the variable gives the number of the default text. *)
Theorem int_of_env_reads_numeral (n : Z) (rest dflt : string) :
  safe_integer n ->
  Js.digits 10 rest = None \/ rest = EmptyString ->
  int_of_env (Some (Js.num_toString n ++ rest)) dflt = Some n
  /\ int_of_env None (Js.num_toString n ++ rest) = Some n
  /\ int_of_env (Some EmptyString) (Js.num_toString n ++ rest) = Some n.
Proof.
  intros _ Hrest. unfold int_of_env, env_or.
  assert (Ht : Js.truthy (Js.num_toString n ++ rest) = true).
  { pose proof (num_toString_truthy n) as H.
    destruct (Js.num_toString n); [discriminate H|reflexivity]. }
  cbn [Js.truthy_opt Js.to_string]. rewrite Ht.
  change (Js.truthy EmptyString) with false. cbv iota.
  repeat split; apply parseInt_radix10_numeral, Hrest.
Qed.

Lemma int_of_env_reads_numeral_witness :
  MAX_PARALLEL_of_env (Some "6 jobs") = Some 6
  /\ MAX_PARALLEL_of_env None = Some 1
  /\ CONVERSION_DELAY_of_env (Some EmptyString) = Some 15000.
Proof.
  assert (Hin : forall n, 0 <= n <= 1000000 -> safe_integer n).
  { intros n Hn. unfold safe_integer. lia. }
  destruct (int_of_env_reads_numeral 6 " jobs" "1" (Hin 6 ltac:(lia))
              (or_introl eq_refl)) as (H6 & _).
  destruct (int_of_env_reads_numeral 1 EmptyString EmptyString
              (Hin 1 ltac:(lia)) (or_intror eq_refl)) as (_ & H1 & _).
  destruct (int_of_env_reads_numeral 15000 EmptyString EmptyString
              (Hin 15000 ltac:(lia)) (or_intror eq_refl)) as (_ & _ & H15).
  split; [exact H6|]. split; [exact H1|exact H15].
Defined.

(** ** The list of excluded codecs *)

Lemma lower_char_idem c : Js.lower_char (Js.lower_char c) = Js.lower_char c.
Proof. destruct c as [[] [] [] [] [] [] [] []]; reflexivity. Qed.

Lemma toLowerCase_idem s : Js.toLowerCase (Js.toLowerCase s) = Js.toLowerCase s.
Proof.
  induction s as [|c r IH]; simpl; [reflexivity|].
  rewrite lower_char_idem, IH. reflexivity.
Qed.

Lemma split_at_pieces sep s :
  Spec.has_char sep (fst (Js.split_at sep s)) = false
  /\ Forall (fun x => Spec.has_char sep x = false) (snd (Js.split_at sep s)).
Proof.
  induction s as [|c r [IHh IHt]]; simpl; [auto|].
  destruct (Js.split_at sep r) as [h t]. simpl in IHh, IHt.
  destruct (Ascii.eqb c sep) eqn:E; simpl.
  - split; [reflexivity|]. constructor; assumption.
  - rewrite E, IHh. auto.
Qed.

Lemma split_pieces sep s :
  Forall (fun x => Spec.has_char sep x = false) (Js.split sep s).
Proof.
  unfold Js.split. pose proof (split_at_pieces sep s) as [Hh Ht].
  destruct (Js.split_at sep s) as [h t]. constructor; assumption.
Qed.

(** X3. Whatever the environment variable holds, the list of excluded
    codecs is not empty and each of its elements is in lower case and has
    no comma in it; unset or empty, the variable gives the list of "opus"
    alone. *)
Theorem excluded_codecs_normalised (v : option string) :
  excluded_codecs_of_env v <> []
  /\ Forall (fun c => Js.toLowerCase c = c /\ Spec.has_char "," c = false)
            (excluded_codecs_of_env v)
  /\ (Js.truthy_opt v = false -> excluded_codecs_of_env v = ["opus"]).
Proof.
  unfold excluded_codecs_of_env. split; [|split].
  - unfold Js.split. destruct (Js.split_at _ _). discriminate.
  - apply Forall_forall. intros c Hin. apply list_elem_of_In in Hin. split.
    + rewrite split_toLowerCase in Hin.
      apply in_map_iff in Hin as (x & <- & _). apply toLowerCase_idem.
    + pose proof (split_pieces "," (Js.toLowerCase (env_or v "opus"))) as H.
      exact (proj1 (List.Forall_forall _ _) H c Hin).
  - intros Hv. unfold env_or. rewrite Hv. reflexivity.
Qed.

Lemma excluded_codecs_normalised_witness :
  excluded_codecs_of_env (Some EmptyString) = ["opus"].
Proof.
  apply (proj2 (proj2 (excluded_codecs_normalised (Some EmptyString)))). reflexivity.
Defined.

(** ** The parser *)

Lemma parse_rule_entry rule m :
  parse_rule rule m
  = match entry_of_rule rule with
    | Ok (Some e) => Ok (map_set (fst e) (snd e) m)
    | Ok None => Ok m
    | Throw err => Throw err
    end.
Proof.
  unfold parse_rule, entry_of_rule.
  destruct (Js.split_at "=" rule) as [condition rest].
  destruct (Js.truthy condition && Js.truthy_opt (nth_error rest 0)).
  - destruct (Js.split_at "|" (Js.to_string (nth_error rest 0))) as [c rest'].
    destruct (nth_error rest' 0), (nth_error rest' 1); reflexivity.
  - destruct (Js.truthy condition && negb (Js.truthy_opt (nth_error rest 0)));
      [|reflexivity].
    destruct (Js.split_at "|" condition) as [c rest'].
    destruct (Js.truthy c && Js.truthy_opt (nth_error rest' 0)
              && Js.truthy_opt (nth_error rest' 1)); [|reflexivity].
    destruct (nth_error rest' 0), (nth_error rest' 1); reflexivity.
Qed.

(** The body of the loop throws exactly on an item with a short action. *)
Lemma entry_of_rule_short rule :
  if short_action rule
  then entry_of_rule rule
       = Throw (TypeError "Cannot read properties of undefined (reading 'trim')")
  else exists o, entry_of_rule rule = Ok o.
Proof.
  unfold short_action, entry_of_rule, Js.split.
  destruct (Js.split_at "=" rule) as [condition rest].
  destruct (Js.truthy condition && Js.truthy_opt (nth_error rest 0)) eqn:E1;
    cbn [andb].
  - destruct (Js.split_at "|" (Js.to_string (nth_error rest 0))) as [c rest'].
    destruct rest' as [|b [|ch rest'']]; cbn; eauto.
  - destruct (Js.truthy condition && negb (Js.truthy_opt (nth_error rest 0)));
      [|eauto].
    destruct (Js.split_at "|" condition) as [c rest'].
    destruct (Js.truthy c) eqn:Ec; cbn [andb]; [|eauto].
    destruct (nth_error rest' 0) as [b|]; cbn [Js.truthy_opt andb]; [|eauto].
    destruct (Js.truthy b); cbn [andb]; [|eauto].
    destruct (nth_error rest' 1) as [ch|]; cbn [Js.truthy_opt]; [|eauto].
    destruct (Js.truthy ch); cbn; eauto.
Qed.

Lemma parse_rules_short rules : forall m,
  if existsb short_action rules
  then parse_rules rules m
       = Throw (TypeError "Cannot read properties of undefined (reading 'trim')")
  else exists m', parse_rules rules m = Ok m'.
Proof.
  induction rules as [|rule rules IH]; intros m; cbn [existsb parse_rules].
  - eauto.
  - rewrite parse_rule_entry. pose proof (entry_of_rule_short rule) as Hr.
    destruct (short_action rule); cbn [orb].
    + rewrite Hr. reflexivity.
    + destruct Hr as [o ->]. destruct o as [e|]; cbn [bind]; apply IH.
Qed.

(** X4. The parser throws exactly when the text has an item with a
    condition, an action, and fewer than three fields in the action; the
    exception is then the [TypeError] of [trim] on [undefined]. On every
    other text it returns a table. *)
Theorem parse_throws_iff_short_action (matrixStr : string) :
  (existsb short_action (Js.split "," matrixStr) = true ->
   parseConversionMatrix matrixStr
   = Throw (TypeError "Cannot read properties of undefined (reading 'trim')"))
  /\ (existsb short_action (Js.split "," matrixStr) = false ->
      exists m, parseConversionMatrix matrixStr = Ok m).
Proof.
  unfold parseConversionMatrix.
  pose proof (parse_rules_short (Js.split "," matrixStr) []) as H.
  destruct matrixStr as [|c s].
  - split; [discriminate|]. intros _. exists []. reflexivity.
  - change (negb (Js.truthy (String c s))) with false. cbv iota.
    destruct (existsb short_action (Js.split "," (String c s))).
    + split; [intros _; exact H|discriminate].
    + split; [discriminate|intros _; exact H].
Qed.

Lemma parse_throws_iff_short_action_witness :
  parseConversionMatrix "mp3|0|0|0|0=opus|64000"
  = Throw (TypeError "Cannot read properties of undefined (reading 'trim')")
  /\ exists m, parseConversionMatrix "mp3|0|0|0|0=opus|64000|2,,=x,y" = Ok m.
Proof.
  split.
  - apply (proj1 (parse_throws_iff_short_action "mp3|0|0|0|0=opus|64000")).
    reflexivity.
  - apply (proj2 (parse_throws_iff_short_action
                    "mp3|0|0|0|0=opus|64000|2,,=x,y")).
    reflexivity.
Defined.

(** *** The map behind the table *)

Lemma map_get_set k k' v m :
  map_get k (map_set k' v m)
  = if String.eqb k' k then Some v else map_get k m.
Proof.
  induction m as [|[k0 v0] m IH]; simpl.
  - destruct (String.eqb k' k); reflexivity.
  - destruct (String.eqb_spec k0 k') as [->|Hne]; simpl.
    + destruct (String.eqb k' k); reflexivity.
    + rewrite IH. destruct (String.eqb_spec k' k) as [->|]; [|reflexivity].
      destruct (String.eqb_spec k0 k); [contradiction|reflexivity].
Qed.

Lemma map_get_app k l l' :
  map_get k (l ++ l')%list
  = match map_get k l with Some v => Some v | None => map_get k l' end.
Proof.
  induction l as [|[k0 v0] l IH]; simpl; [reflexivity|].
  destruct (String.eqb k0 k); [reflexivity|apply IH].
Qed.

Lemma map_set_keys k v m :
  map fst (map_set k v m)
  = if existsb (String.eqb k) (map fst m) then map fst m else (map fst m ++ [k])%list.
Proof.
  induction m as [|[k0 v0] m IH]; simpl; [reflexivity|].
  rewrite (String.eqb_sym k k0).
  destruct (String.eqb_spec k0 k) as [->|Hne]; simpl; [reflexivity|].
  rewrite IH. destruct (existsb (String.eqb k) (map fst m)); reflexivity.
Qed.

Lemma set_all_snoc es e :
  set_all (es ++ [e])%list = map_set (fst e) (snd e) (set_all es).
Proof. unfold set_all. rewrite fold_left_app. reflexivity. Qed.

Lemma set_all_get k es : map_get k (set_all es) = map_get k (rev es).
Proof.
  induction es as [|e es IH] using rev_ind; [reflexivity|].
  rewrite set_all_snoc, map_get_set, List.rev_app_distr. destruct e as [k' v]. simpl.
  destruct (String.eqb k' k); [reflexivity|apply IH].
Qed.

Lemma set_all_keys es :
  map fst (set_all es) = rev (nodup string_dec (rev (map fst es))).
Proof.
  induction es as [|e es IH] using rev_ind; [reflexivity|].
  rewrite set_all_snoc, map_set_keys, IH, map_app, List.rev_app_distr. simpl.
  destruct (in_dec string_dec (fst e) (rev (map fst es))) as [Hin|Hnin].
  - assert (H : existsb (String.eqb (fst e))
                  (rev (nodup string_dec (rev (map fst es)))) = true).
    { apply existsb_eqb_In. apply in_rev. rewrite rev_involutive.
      apply nodup_In. exact Hin. }
    rewrite H. reflexivity.
  - assert (H : existsb (String.eqb (fst e))
                  (rev (nodup string_dec (rev (map fst es)))) = false).
    { apply not_true_is_false. intros Ht. apply Hnin.
      apply existsb_eqb_In in Ht. apply in_rev in Ht.
      apply nodup_In in Ht. exact Ht. }
    rewrite H. reflexivity.
Qed.

Lemma parse_rules_entries rules os : forall m,
  Forall2 (fun rule o => entry_of_rule rule = Ok o) rules os ->
  parse_rules rules m
  = Ok (fold_left (fun m e => map_set (fst e) (snd e) m) (omap id os) m).
Proof.
  intros m H. revert m.
  induction H as [|rule o rules os Hr _ IH]; intros m; [reflexivity|].
  cbn [parse_rules]. rewrite parse_rule_entry, Hr.
  destruct o as [e|]; cbn [bind omap]; rewrite IH; reflexivity.
Qed.

(** X5. When no item of the text throws, the table holds one entry per
    distinct key, in the order in which the keys were first written, and
    each key has the action of the last item that was written with it. *)
Theorem repeated_condition_first_place_last_action
    (matrixStr : string) (os : list (option (string * ConversionProfile))) :
  Forall2 (fun rule o => entry_of_rule rule = Ok o) (Js.split "," matrixStr) os ->
  exists m,
    parseConversionMatrix matrixStr = Ok m
    /\ map fst m = rev (nodup string_dec (rev (map fst (omap id os))))
    /\ NoDup (map fst m)
    /\ forall k, map_get k m = map_get k (rev (omap id os)).
Proof.
  intros H. exists (set_all (omap id os)).
  split; [|split; [apply set_all_keys|split; [|intros k; apply set_all_get]]].
  - unfold parseConversionMatrix. destruct matrixStr as [|c s].
    + inversion H as [|rule o rules os' Hr Hrest]; subst.
      inversion Hrest; subst. vm_compute in Hr. injection Hr as <-.
      reflexivity.
    + change (negb (Js.truthy (String c s))) with false. cbv iota.
      apply (parse_rules_entries _ _ [] H).
  - rewrite set_all_keys. apply NoDup_ListNoDup, NoDup_rev, NoDup_nodup.
Qed.

Lemma repeated_condition_first_place_last_action_witness :
  exists m,
    parseConversionMatrix "mp3|0|0|0|0=opus|1|1,junk,aac|0|0|0|0=opus|2|2,mp3|0|0|0|0=flac|3|3"
    = Ok m
    /\ map fst m = ["mp3|0|0|0|0"; "aac|0|0|0|0"]
    /\ map_get "mp3|0|0|0|0" m = Some (mkProfile "flac" "3" "3").
Proof.
  destruct (repeated_condition_first_place_last_action
              "mp3|0|0|0|0=opus|1|1,junk,aac|0|0|0|0=opus|2|2,mp3|0|0|0|0=flac|3|3"
              [Some ("mp3|0|0|0|0", mkProfile "opus" "1" "1"); None;
               Some ("aac|0|0|0|0", mkProfile "opus" "2" "2");
               Some ("mp3|0|0|0|0", mkProfile "flac" "3" "3")])
    as (m & Hm & Hkeys & _ & Hget).
  - repeat constructor.
  - exists m. split; [exact Hm|]. split; [exact Hkeys|]. apply Hget.
Defined.

(** *** Writing a table and reading it back *)

Lemma has_char_app x a b :
  Spec.has_char x (a ++ b) = Spec.has_char x a || Spec.has_char x b.
Proof.
  induction a as [|c a IH]; simpl; [reflexivity|].
  rewrite IH, orb_assoc. reflexivity.
Qed.

Lemma has_space_app a b : has_space (a ++ b) = has_space a || has_space b.
Proof.
  induction a as [|c a IH]; simpl; [reflexivity|].
  rewrite IH, orb_assoc. reflexivity.
Qed.

Lemma all_digits_has_char x s :
  is_digit x = false -> all_digits s = true -> Spec.has_char x s = false.
Proof.
  intros Hx. induction s as [|c s IH]; simpl; [reflexivity|].
  intros H. apply andb_true_iff in H as [Hc Hs]. rewrite (IH Hs), orb_false_r.
  destruct (Ascii.eqb_spec c x) as [->|]; [congruence|reflexivity].
Qed.

Lemma all_digits_no_space s : all_digits s = true -> has_space s = false.
Proof.
  induction s as [|c s IH]; simpl; [reflexivity|].
  intros H. apply andb_true_iff in H as [Hc Hs].
  destruct (digit_facts c Hc) as (Hsp & _). rewrite Hsp, (IH Hs). reflexivity.
Qed.

Lemma numeral_shape n :
  exists s, all_digits s = true
            /\ (Js.num_toString n = s \/ Js.num_toString n = String "-" s).
Proof.
  destruct n as [|p|p]; unfold Js.num_toString; simpl.
  - exists "0". auto.
  - destruct (pos_numeral p) as (c & r & -> & Hc & Hr & _).
    exists (String c r). simpl. rewrite Hc, Hr. auto.
  - destruct (pos_numeral p) as (c & r & -> & Hc & Hr & _).
    exists (String c r). simpl. rewrite Hc, Hr. auto.
Qed.

Lemma num_toString_has_char x n :
  is_digit x = false -> Ascii.eqb "-" x = false ->
  Spec.has_char x (Js.num_toString n) = false.
Proof.
  intros Hx Hm. destruct (numeral_shape n) as (s & Hs & [-> | ->]);
    cbn [Spec.has_char].
  - apply all_digits_has_char; assumption.
  - rewrite Hm. apply all_digits_has_char; assumption.
Qed.

Lemma num_toString_no_space n : has_space (Js.num_toString n) = false.
Proof.
  destruct (numeral_shape n) as (s & Hs & [-> | ->]); simpl.
  - apply all_digits_no_space, Hs.
  - apply all_digits_no_space, Hs.
Qed.

Lemma trimStart_no_space s : has_space s = false -> Js.trimStart s = s.
Proof.
  destruct s as [|c s]; simpl; [reflexivity|].
  intros H. apply orb_false_iff in H as [-> _]. reflexivity.
Qed.

Lemma trimEnd_no_space s : has_space s = false -> Js.trimEnd s = s.
Proof.
  induction s as [|c s IH]; simpl; [reflexivity|].
  intros H. apply orb_false_iff in H as [Hc Hs]. rewrite (IH Hs), Hc.
  destruct s; reflexivity.
Qed.

Lemma trim_no_space s : has_space s = false -> Js.trim s = s.
Proof.
  intros H. unfold Js.trim. rewrite (trimStart_no_space _ H).
  apply trimEnd_no_space, H.
Qed.

Lemma plain_parts s :
  plain s = true ->
  Spec.has_char "," s = false /\ Spec.has_char "=" s = false
  /\ Spec.has_char "|" s = false /\ has_space s = false.
Proof.
  unfold plain. rewrite !andb_true_iff, !negb_true_iff. tauto.
Qed.

(** The text of a condition has the separator of fields in it and no
    other special character. *)
Lemma key_of_chars c :
  plain (Spec.condCodec c) = true ->
  Spec.has_char "," (Spec.key_of c) = false
  /\ Spec.has_char "=" (Spec.key_of c) = false
  /\ has_space (Spec.key_of c) = false
  /\ Js.truthy (Spec.key_of c) = true.
Proof.
  intros H. destruct (plain_parts _ H) as (Hc & He & _ & Hs).
  unfold Spec.key_of. repeat change ("|" ++ ?x) with (String "|" x).
  rewrite !has_char_app, !has_space_app. cbn [Spec.has_char has_space].
  rewrite !has_char_app, !has_space_app. cbn [Spec.has_char has_space].
  rewrite !has_char_app, !has_space_app. cbn [Spec.has_char has_space].
  rewrite !has_char_app, !has_space_app. cbn [Spec.has_char has_space].
  rewrite Hc, He, Hs.
  rewrite !(num_toString_has_char "," _ eq_refl eq_refl).
  rewrite !(num_toString_has_char "=" _ eq_refl eq_refl).
  rewrite !num_toString_no_space.
  repeat split. destruct (Spec.condCodec c); reflexivity.
Qed.

Lemma entry_of_render_rule r :
  plain_rule r = true ->
  entry_of_rule (render_rule r) = Ok (Some (Spec.key_of (fst r), snd r)).
Proof.
  destruct r as [c [ac ab ach]]. unfold plain_rule. cbn [fst snd codec bitrate channels].
  rewrite !andb_true_iff. intros [[[Hc Hac] Hab] Hach].
  destruct (key_of_chars c Hc) as (_ & Hkeq & Hksp & Hkt).
  destruct (plain_parts _ Hac) as (_ & Haceq & Hacbar & Hacsp).
  destruct (plain_parts _ Hab) as (_ & Habeq & Habbar & Habsp).
  destruct (plain_parts _ Hach) as (_ & Hacheq & Hachbar & Hachsp).
  unfold entry_of_rule, render_rule. cbn [fst snd codec bitrate channels].
  change ("=" ++ ?x) with (String "=" x).
  repeat change ("|" ++ ?x) with (String "|" x).
  rewrite (split_at_append _ _ _ Hkeq).
  assert (Haction : Spec.has_char "=" (ac ++ String "|" (ab ++ String "|" ach))
                    = false).
  { rewrite has_char_app. cbn [Spec.has_char]. rewrite has_char_app.
    cbn [Spec.has_char]. rewrite Haceq, Habeq, Hacheq. reflexivity. }
  rewrite (split_without _ _ Haction). cbn [nth_error Js.truthy_opt Js.to_string].
  rewrite Hkt.
  assert (Hat : Js.truthy (ac ++ String "|" (ab ++ String "|" ach)) = true)
    by (destruct ac; reflexivity).
  rewrite Hat. cbn [andb].
  rewrite (split_at_append _ _ _ Hacbar), (split_append _ _ _ Habbar),
    (split_without _ _ Hachbar).
  cbn [nth_error trim_of bind].
  rewrite (trim_no_space _ Hksp), (trim_no_space _ Hacsp),
    (trim_no_space _ Habsp), (trim_no_space _ Hachsp).
  reflexivity.
Qed.

Lemma render_rule_chars r :
  plain_rule r = true ->
  Spec.has_char "," (render_rule r) = false /\ Js.truthy (render_rule r) = true.
Proof.
  destruct r as [c [ac ab ach]]. unfold plain_rule. cbn [fst snd codec bitrate channels].
  rewrite !andb_true_iff. intros [[[Hc Hac] Hab] Hach].
  destruct (key_of_chars c Hc) as (Hkc & _ & _ & Hkt).
  destruct (plain_parts _ Hac) as (Hacc & _).
  destruct (plain_parts _ Hab) as (Habc & _).
  destruct (plain_parts _ Hach) as (Hachc & _).
  unfold render_rule. cbn [fst snd codec bitrate channels].
  change ("=" ++ ?x) with (String "=" x).
  repeat change ("|" ++ ?x) with (String "|" x).
  split.
  - rewrite has_char_app. cbn [Spec.has_char]. rewrite has_char_app.
    cbn [Spec.has_char]. rewrite has_char_app. cbn [Spec.has_char].
    rewrite Hkc, Hacc, Habc, Hachc. reflexivity.
  - destruct (Spec.key_of c); [discriminate Hkt|reflexivity].
Qed.

Lemma split_join items :
  items <> [] ->
  Forall (fun x => Spec.has_char "," x = false) items ->
  Js.split "," (join "," items) = items.
Proof.
  intros Hne H. induction H as [|x items Hx _ IH]; [contradiction|].
  destruct items as [|y items].
  - simpl. apply split_without, Hx.
  - change (join "," (x :: y :: items))
      with (x ++ String "," (join "," (y :: items))).
    rewrite (split_append _ _ _ Hx), IH; [reflexivity|discriminate].
Qed.

Lemma set_all_distinct es : NoDup (map fst es) -> set_all es = es.
Proof.
  induction es as [|e es IH] using rev_ind; intros H; [reflexivity|].
  rewrite map_app in H. apply NoDup_ListNoDup in H.
  apply List.NoDup_remove in H as [Hnd Hnin].
  rewrite app_nil_r in Hnd, Hnin.
  rewrite set_all_snoc, IH by (apply NoDup_ListNoDup, Hnd).
  clear IH Hnd. destruct e as [k v]. simpl in *.
  induction es as [|[k0 v0] es IHes]; simpl; [reflexivity|].
  destruct (String.eqb_spec k0 k) as [->|_].
  - exfalso. apply Hnin. simpl. auto.
  - f_equal. apply IHes. intros Hin. apply Hnin. simpl. auto.
Qed.

(** X6. A table written out in the format of the parser and read back is
    the same table: for rules whose conditions are pairwise different
    and whose codec and action fields hold no separator and no white
    space, [parseConversionMatrix] of the text is the matrix of the
    rules, in their order. *)
Theorem parse_render_round_trip (rules : list Spec.ConversionRule) :
  Forall (fun r => plain_rule r = true) rules ->
  NoDup (map (fun r => Spec.key_of (fst r)) rules) ->
  parseConversionMatrix (render rules) = Ok (Spec.table rules).
Proof.
  intros Hplain Hnd. destruct rules as [|r rules]; [reflexivity|].
  unfold parseConversionMatrix, render.
  assert (Hitems : Forall (fun x => Spec.has_char "," x = false)
                     (map render_rule (r :: rules))).
  { apply List.Forall_map. eapply List.Forall_impl; [|exact Hplain].
    intros a Ha. apply render_rule_chars, Ha. }
  assert (Ht : Js.truthy (join "," (map render_rule (r :: rules))) = true).
  { apply Forall_cons_1 in Hplain as [Hr _].
    destruct (render_rule_chars r Hr) as [_ Hrt]. cbn [map join].
    destruct (map render_rule rules);
      [exact Hrt|destruct (render_rule r); [discriminate Hrt|reflexivity]]. }
  rewrite Ht. cbn [negb]. rewrite split_join by (try exact Hitems; discriminate).
  rewrite (parse_rules_entries _ (map Some (Spec.table (r :: rules)))).
  - f_equal. replace (omap id (map Some (Spec.table (r :: rules))))
      with (Spec.table (r :: rules)).
    + apply set_all_distinct. unfold Spec.table. rewrite map_map. exact Hnd.
    + clear. induction (Spec.table (r :: rules)) as [|e l IH]; [reflexivity|].
      cbn. rewrite <- IH. reflexivity.
  - clear Hnd Hitems Ht. induction Hplain as [|a l Ha _ IH]; [constructor|].
    cbn [map Spec.table]. constructor; [|exact IH].
    apply entry_of_render_rule, Ha.
Qed.

Lemma parse_render_round_trip_witness :
  parseConversionMatrix (render readme_rules) = Ok (Spec.table readme_rules).
Proof.
  apply parse_render_round_trip.
  - repeat constructor.
  - unfold readme_rules. cbn [map fst].
    apply NoDup_ListNoDup.
    repeat (apply List.NoDup_cons;
            [intros H; vm_compute in H;
             repeat (destruct H as [H|H]; [discriminate H|]); exact H|]).
    apply List.NoDup_nil.
Defined.

(** ** The matcher *)

Lemma find_loop_none m inputCodec inputBitrate inputChannels :
  find_loop m inputCodec inputBitrate inputChannels = None
  <-> Forall (fun e => condition_matches (fst e) inputCodec inputBitrate
                         inputChannels = false) m.
Proof.
  induction m as [|[k p] m IH]; simpl.
  - split; [constructor|reflexivity].
  - destruct (condition_matches k inputCodec inputBitrate inputChannels) eqn:E.
    + split; [discriminate|]. intros H. apply Forall_cons_1 in H as [H _].
      simpl in H. congruence.
    + rewrite IH. split; [intros H; constructor; [exact E|exact H]|].
      intros H. apply Forall_cons_1 in H as [_ H]. exact H.
Qed.

(** X7. [findConversion] returns nothing exactly when no entry of the
    matrix passes the test of the loop; a matrix with an entry under the
    all-wildcard key therefore returns a result for every input. The
    lookup of that key after the loop never supplies the result: the
    function is its loop. *)
Theorem no_conversion_iff_no_entry_matches
    (m : ConversionMatrix) (inputCodec : string) (inputBitrate inputChannels : Z) :
  (findConversion m inputCodec inputBitrate inputChannels = None
   <-> Forall (fun e => condition_matches (fst e) inputCodec inputBitrate
                          inputChannels = false) m)
  /\ (is_Some (map_get FALLBACK_KEY m) ->
      is_Some (findConversion m inputCodec inputBitrate inputChannels))
  /\ findConversion m inputCodec inputBitrate inputChannels
     = find_loop m inputCodec inputBitrate inputChannels.
Proof.
  split; [|split].
  - rewrite findConversion_is_loop. apply find_loop_none.
  - intros [p Hp]. rewrite findConversion_is_loop.
    destruct (find_loop m inputCodec inputBitrate inputChannels) eqn:E; [eauto|].
    rewrite (find_loop_none_no_fallback _ _ _ _ E) in Hp. discriminate.
  - apply findConversion_is_loop.
Qed.

Lemma no_conversion_iff_no_entry_matches_witness :
  findConversion [("mp3|0|0|0|0", mkProfile "opus" "64000" "2")] "flac" 900000 2
  = None
  /\ is_Some (findConversion [("mp3|1|2|0|0", mkProfile "opus" "64000" "2");
                              ("0|0|0|0|0", mkProfile "aac" "96000" "2")]
                             "flac" 900000 2).
Proof.
  split.
  - apply (proj1 (no_conversion_iff_no_entry_matches
                    [("mp3|0|0|0|0", mkProfile "opus" "64000" "2")]
                    "flac" 900000 2)).
    repeat constructor.
  - apply (proj1 (proj2 (no_conversion_iff_no_entry_matches
                           [("mp3|1|2|0|0", mkProfile "opus" "64000" "2");
                            ("0|0|0|0|0", mkProfile "aac" "96000" "2")]
                           "flac" 900000 2))).
    eexists. reflexivity.
Defined.

Lemma condition_matches_codec_case k c c' b ch :
  Js.toLowerCase c = Js.toLowerCase c' ->
  condition_matches k c b ch = condition_matches k c' b ch.
Proof.
  intros H. unfold condition_matches.
  destruct (Js.split_at "|" k) as [condCodec rest]. rewrite H. reflexivity.
Qed.

(** X8. The letter case of the input codec does not change which entry
    is chosen: two input codecs with the same lower-case form stop the
    loop at the same entry, or both at none. The results differ only
    where the action says copy, which hands back the input codec as it
    was given. *)
Theorem input_codec_case_is_ignored
    (m : ConversionMatrix) (c c' : string) (b ch : Z) :
  Js.toLowerCase c = Js.toLowerCase c' ->
  first_entry m c b ch = first_entry m c' b ch
  /\ match first_entry m c b ch with
     | Some e =>
         findConversion m c b ch = Some (resolve_copy (snd e) c b ch)
         /\ findConversion m c' b ch = Some (resolve_copy (snd e) c' b ch)
     | None =>
         findConversion m c b ch = None /\ findConversion m c' b ch = None
     end.
Proof.
  intros H.
  assert (Heq : first_entry m c b ch = first_entry m c' b ch).
  { unfold first_entry. induction m as [|e m IHm]; [reflexivity|].
    cbn [find]. rewrite (condition_matches_codec_case _ _ _ _ _ H), IHm.
    reflexivity. }
  split; [exact Heq|].
  rewrite !findConversion_is_loop, !find_loop_first_entry, <- Heq.
  destruct (first_entry m c b ch); auto.
Qed.

Lemma input_codec_case_is_ignored_witness :
  findConversion (Spec.table readme_rules) "MP3" 32000 1
  = findConversion (Spec.table readme_rules) "mp3" 32000 1.
Proof.
  destruct (input_codec_case_is_ignored (Spec.table readme_rules)
              "MP3" "mp3" 32000 1 eq_refl) as [_ H].
  change (first_entry (Spec.table readme_rules) "MP3" 32000 1)
    with (Some ("0|1|48000|1|1", mkProfile "opus" "24000" "1")) in H.
  destruct H as [-> ->]. reflexivity.
Defined.

Lemma bound_interval lo hi x y z :
  (Js.strict_eq lo "0" || Js.ge_num x (Js.parseInt (Js.to_string lo))) = true ->
  (Js.strict_eq hi "0" || Js.le_num z (Js.parseInt (Js.to_string hi))) = true ->
  x <= y <= z ->
  (Js.strict_eq lo "0" || Js.ge_num y (Js.parseInt (Js.to_string lo))) = true
  /\ (Js.strict_eq hi "0" || Js.le_num y (Js.parseInt (Js.to_string hi))) = true.
Proof.
  intros Hlo Hhi Hxyz.
  destruct (Js.strict_eq lo "0"), (Js.strict_eq hi "0"); cbn [orb] in *;
    unfold Js.ge_num, Js.le_num in *;
    destruct (Js.parseInt (Js.to_string lo)), (Js.parseInt (Js.to_string hi));
    try discriminate; split; try reflexivity;
    repeat match goal with
           | H : (_ <=? _) = true |- _ => apply Z.leb_le in H
           end; apply Z.leb_le; lia.
Qed.

(** X9. For every key, however it is written, the inputs that pass the
    test of the loop form a box: when two inputs with the same codec
    pass, every input whose bit rate and channel count lie between
    theirs passes too. *)
Theorem matching_inputs_form_an_interval
    (k c : string) (b1 b2 b ch1 ch2 ch : Z) :
  condition_matches k c b1 ch1 = true ->
  condition_matches k c b2 ch2 = true ->
  b1 <= b <= b2 ->
  ch1 <= ch <= ch2 ->
  condition_matches k c b ch = true.
Proof.
  unfold condition_matches. destruct (Js.split_at "|" k) as [condCodec rest].
  rewrite !andb_true_iff.
  intros [[[[Hc Hb1lo] _] Hch1lo] _] [[[[_ _] Hb2hi] _] Hch2hi] Hb Hch.
  destruct (bound_interval _ _ _ _ _ Hb1lo Hb2hi Hb) as [-> ->].
  destruct (bound_interval _ _ _ _ _ Hch1lo Hch2hi Hch) as [-> ->].
  rewrite Hc. auto.
Qed.

Lemma matching_inputs_form_an_interval_witness :
  condition_matches "mp3|0x10| 48000|1|2" "mp3" 20000 2 = true.
Proof.
  apply (matching_inputs_form_an_interval "mp3|0x10| 48000|1|2" "mp3"
           16 48000 20000 1 2 2).
  - reflexivity.
  - reflexivity.
  - lia.
  - lia.
Defined.

(** ** The queue is served in order *)

Lemma fetched_app l l' : fetched (l ++ l') = (fetched l ++ fetched l')%list.
Proof.
  induction l as [|c l IH]; simpl; [reflexivity|].
  destruct c; simpl; rewrite IH; reflexivity.
Qed.

Lemma fetched_shutdown st : fetched (calls (shutdown st)) = fetched (calls st).
Proof.
  rewrite shutdown_calls_eq, fetched_app. unfold shutdown_calls.
  destruct (reconnectTimeout st), (ws st), (encodingQueue st);
    simpl; apply app_nil_r.
Qed.

Section Fifo.

Variable cfg : Config.

Lemma processEncodingQueue_served st :
  all_truthy (encodingQueue st) ->
  served (processEncodingQueue cfg st) = served st
  /\ all_truthy (encodingQueue (processEncodingQueue cfg st)).
Proof.
  intros Hq. unfold processEncodingQueue, served.
  destruct (exited st); [auto|].
  destruct (encodingQueue st) as [|itemId rest] eqn:Eq.
  - destruct (DRY_RUN cfg); [|rewrite Eq; auto].
    rewrite fetched_shutdown. destruct (shutdown_keeps st) as (-> & _).
    rewrite Eq. auto.
  - destruct (MAX_PARALLEL cfg <=? runningEncodings st); [rewrite Eq; auto|].
    apply Forall_cons_1 in Hq as [Hid Hrest]. rewrite Hid.
    cbn. rewrite fetched_app, <- app_assoc. auto.
Qed.

Lemma iter_processEncodingQueue_served n st :
  all_truthy (encodingQueue st) ->
  served (Nat.iter n (processEncodingQueue cfg) st) = served st
  /\ all_truthy (encodingQueue (Nat.iter n (processEncodingQueue cfg) st)).
Proof.
  intros Hq. induction n as [|n [IHs IHq]]; simpl; [auto|].
  destruct (processEncodingQueue_served _ IHq) as [-> ?]. auto.
Qed.

Lemma skip_served st :
  all_truthy (encodingQueue st) ->
  served (skip cfg st) = served st
  /\ all_truthy (encodingQueue (skip cfg st)).
Proof. intros Hq. apply (processEncodingQueue_served (decr st)), Hq. Qed.

Lemma after_getItemDetails_served itemId r st :
  all_truthy (encodingQueue st) ->
  served (after_getItemDetails cfg itemId r st) = served st
  /\ all_truthy (encodingQueue (after_getItemDetails cfg itemId r st)).
Proof.
  intros Hq. unfold after_getItemDetails.
  destruct r as [d|e]; [|apply skip_served, Hq].
  destruct (media d) as [[[[|af afs]|]]|]; cbn [audioFiles];
    try (apply skip_served, Hq).
  destruct (is_excluded cfg (af_codec af)); [apply skip_served, Hq|].
  destruct (findConversion _ _ _ _).
  - unfold served. cbn. rewrite !fetched_app. cbn. rewrite !app_nil_r. auto.
  - match goal with
    | |- served (skip cfg ?s) = _ /\ _ =>
        destruct (skip_served s Hq) as [-> ?]
    end.
    unfold served. cbn. rewrite fetched_app. cbn. rewrite app_nil_r. auto.
Qed.

Lemma after_startM4bEncoding_served itemId r st :
  all_truthy (encodingQueue st) ->
  served (after_startM4bEncoding cfg itemId r st) = served st
  /\ all_truthy (encodingQueue (after_startM4bEncoding cfg itemId r st)).
Proof.
  intros Hq. destruct r; [|apply skip_served, Hq].
  unfold served. cbn. rewrite fetched_app. cbn. rewrite app_nil_r. auto.
Qed.

Lemma step_served st ev :
  exited st = false ->
  all_truthy (encodingQueue st) ->
  served (step cfg st ev) = (served st ++ added [ev])%list
  /\ all_truthy (encodingQueue (step cfg st ev)).
Proof.
  intros Hex Hq. unfold step. rewrite Hex.
  destruct ev as [|i r|i r|i r|name payload]; cbn [added].
  - rewrite app_nil_r. apply processEncodingQueue_served, Hq.
  - rewrite app_nil_r. destruct (suspended st !! i) as [[]|]; auto.
    apply (after_getItemDetails_served _ _
             (set_suspended (delete i (suspended st)) st)), Hq.
  - rewrite app_nil_r. destruct (suspended st !! i) as [[]|]; auto.
    apply (after_startM4bEncoding_served _ _
             (set_suspended (delete i (suspended st)) st)), Hq.
  - rewrite app_nil_r. destruct (suspended st !! i) as [[]|]; auto.
    destruct r; auto.
  - unfold handleSocketIoEvent.
    destruct (String.eqb name "item_added") eqn:Eadd; cbn [andb].
    + destruct (Js.truthy_opt (payload_id payload)) eqn:Eid.
      * unfold served. cbn. rewrite fetched_app. cbn.
        rewrite app_nil_r, app_assoc. split; [reflexivity|].
        apply Forall_app. split; [exact Hq|]. constructor; [|constructor].
        destruct (payload_id payload); [exact Eid|discriminate Eid].
      * rewrite app_nil_r. auto.
    + rewrite app_nil_r.
      destruct (String.eqb name "task_finished"); [|auto].
      destruct (payload_action payload) as [action|]; [|auto].
      destruct (str_includes "encode" action); [|auto].
      unfold backfill.
      match goal with
      | |- served (Nat.iter ?n _ ?s) = _ /\ _ =>
          assert (Hs : served s = served st /\ all_truthy (encodingQueue s))
      end.
      { destruct (EMBED_METADATA cfg && _); unfold served; cbn;
          rewrite ?fetched_app; cbn; rewrite ?app_nil_r; auto. }
      destruct Hs as [Hs Hq'].
      match goal with
      | |- served (Nat.iter ?n _ ?s) = _ /\ _ =>
          destruct (iter_processEncodingQueue_served n s Hq') as [-> ?]
      end.
      auto.
Qed.

Lemma step_exited st ev : exited st = true -> step cfg st ev = st.
Proof. intros H. unfold step. rewrite H. reflexivity. Qed.

Lemma run_exited st evs : exited st = true -> run cfg st evs = st.
Proof.
  revert st. induction evs as [|ev evs IH]; intros st H; [reflexivity|].
  unfold run in *. cbn [fold_left]. rewrite (step_exited _ _ H). apply IH, H.
Qed.

Lemma run_served evs : forall st,
  all_truthy (encodingQueue st) ->
  exited (run cfg st evs) = false ->
  served (run cfg st evs) = (served st ++ added evs)%list.
Proof.
  induction evs as [|ev evs IH]; intros st Hq Hex.
  - simpl. rewrite app_nil_r. reflexivity.
  - assert (Hst : exited st = false).
    { destruct (exited st) eqn:E; [|reflexivity].
      rewrite (run_exited _ _ E) in Hex. congruence. }
    destruct (step_served st ev Hst Hq) as [Hs Hq'].
    change (run cfg st (ev :: evs)) with (run cfg (step cfg st ev) evs) in *.
    rewrite (IH _ Hq' Hex), Hs, <- app_assoc. f_equal.
    destruct ev as [| | | |name payload]; try reflexivity.
    cbn [added]. destruct (_ && _); reflexivity.
Qed.

End Fifo.

(** ** The counter and the attempts *)

Lemma inflight_app l l' : inflight (l ++ l') = inflight l + inflight l'.
Proof.
  induction l as [|a l IH]; simpl; [reflexivity|].
  destruct a; rewrite IH; lia.
Qed.

Lemma inflight_delete l : forall i a,
  l !! i = Some a -> inflight (delete i l) = inflight l - weight a.
Proof.
  induction l as [|b l IH]; intros i a H; [discriminate|].
  destruct i as [|i]; simpl in H.
  - injection H as <-. change (delete 0%nat (b :: l)) with l.
    destruct b; cbn [inflight weight]; lia.
  - change (delete (S i) (b :: l)) with (b :: delete i l).
    specialize (IH i a H). destruct b; cbn [inflight]; lia.
Qed.

Lemma started_app l l' : started (l ++ l') = started l + started l'.
Proof.
  induction l as [|c l IH]; simpl; [reflexivity|].
  destruct c; rewrite IH; lia.
Qed.

Lemma started_shutdown st : started (calls (shutdown st)) = started (calls st).
Proof.
  rewrite shutdown_calls_eq, started_app. unfold shutdown_calls.
  destruct (reconnectTimeout st), (ws st), (encodingQueue st); simpl; lia.
Qed.

Section Accounting.

Variable cfg : Config.

Lemma processEncodingQueue_balance st :
  balance (processEncodingQueue cfg st) = balance st.
Proof.
  unfold processEncodingQueue, balance.
  destruct (exited st); [reflexivity|].
  destruct (encodingQueue st) as [|itemId rest].
  - destruct (DRY_RUN cfg); [|reflexivity].
    rewrite started_shutdown. destruct (shutdown_keeps st) as (_ & -> & ->).
    reflexivity.
  - destruct (MAX_PARALLEL cfg <=? runningEncodings st); [reflexivity|].
    destruct (Js.truthy itemId); cbn; [|reflexivity].
    rewrite inflight_app, started_app. simpl. lia.
Qed.

Lemma skip_balance st : balance (skip cfg st) = balance st - 1.
Proof.
  unfold skip. rewrite processEncodingQueue_balance. unfold balance. cbn. lia.
Qed.

Lemma after_getItemDetails_balance itemId r st :
  balance (after_getItemDetails cfg itemId r st) = balance st - 1.
Proof.
  unfold after_getItemDetails.
  destruct r as [d|e]; [|apply skip_balance].
  destruct (media d) as [[[[|af afs]|]]|]; cbn [audioFiles];
    try apply skip_balance.
  destruct (is_excluded cfg (af_codec af)); [apply skip_balance|].
  destruct (findConversion _ _ _ _).
  - unfold balance. cbn. rewrite inflight_app, !started_app. simpl. lia.
  - rewrite skip_balance. unfold balance. cbn. rewrite started_app. simpl. lia.
Qed.

Lemma after_startM4bEncoding_balance itemId r st :
  balance (after_startM4bEncoding cfg itemId r st) = balance st - 1.
Proof.
  destruct r; [|apply skip_balance].
  unfold balance. cbn. rewrite inflight_app, started_app. simpl. lia.
Qed.

Lemma removed_balance st i a :
  suspended st !! i = Some a ->
  balance (set_suspended (delete i (suspended st)) st) = balance st + weight a.
Proof.
  intros H. unfold balance. cbn. rewrite (inflight_delete _ _ _ H). lia.
Qed.

Lemma step_balance st ev :
  is_completion ev = false -> is_resync ev = false ->
  balance (step cfg st ev) = balance st.
Proof.
  intros Hc Hr. unfold step. destruct (exited st); [reflexivity|].
  destruct ev as [|i r|i r|i r|name payload].
  - apply processEncodingQueue_balance.
  - destruct (suspended st !! i) as [[]|] eqn:E; try reflexivity.
    rewrite after_getItemDetails_balance, (removed_balance _ _ _ E). simpl. lia.
  - destruct (suspended st !! i) as [[]|] eqn:E; try reflexivity.
    rewrite after_startM4bEncoding_balance, (removed_balance _ _ _ E).
    simpl. lia.
  - destruct (suspended st !! i) as [[]|] eqn:E; try reflexivity.
    destruct r as [n|e]; [discriminate Hr|].
    cbn [after_getTasks]. rewrite (removed_balance _ _ _ E). simpl. lia.
  - simpl in Hc. unfold handleSocketIoEvent. rewrite Hc.
    destruct (String.eqb name "item_added"); [|reflexivity].
    destruct (Js.truthy_opt (payload_id payload)); [|reflexivity].
    unfold balance. cbn. rewrite started_app. simpl. lia.
Qed.

Lemma run_balance evs : forall st,
  Forall (fun ev => is_completion ev = false /\ is_resync ev = false) evs ->
  balance (run cfg st evs) = balance st.
Proof.
  induction evs as [|ev evs IH]; intros st H; [reflexivity|].
  apply Forall_cons_1 in H as [[Hc Hr] H].
  change (run cfg st (ev :: evs)) with (run cfg (step cfg st ev) evs).
  rewrite (IH _ H). apply step_balance; assumption.
Qed.

End Accounting.

(** X11. As long as no completion signal arrives and no resynchronisation
    succeeds, the counter is the number of attempts that wait for
    [getItemDetails] or [startM4bEncoding] plus the number of encodings
    started: every attempt that is skipped or fails has given back the
    one it took, once. *)
Theorem counter_counts_attempts_and_encodings
    (cfg : Config) (q : list string) (evs : list Event) :
  Forall (fun ev => is_completion ev = false /\ is_resync ev = false) evs ->
  runningEncodings (run cfg (new_client q) evs)
  = inflight (suspended (run cfg (new_client q) evs))
    + started (calls (run cfg (new_client q) evs)).
Proof.
  intros H. pose proof (run_balance cfg evs (new_client q) H) as Hb.
  unfold balance in Hb. simpl in Hb. lia.
Qed.

Lemma counter_counts_attempts_and_encodings_witness :
  runningEncodings
    (run (mkConfig 3 15000 false false ["opus"]
                   [("0|0|0|0|0", mkProfile "copy" "0" "0")])
       (new_client ["a"; "b"; "c"])
       [DispatchTimer; DispatchTimer; DispatchTimer;
        ItemDetailsSettled 1 (Ok (opus_item "b"));
        ItemDetailsSettled 0 (Ok (mp3_item "a"));
        StartEncodingSettled 1 (Ok tt);
        GetTasksSettled 1 (Throw (TypeError "Network Error"))])
  = 1 + 1.
Proof.
  refine (counter_counts_attempts_and_encodings _ _ _ _).
  repeat constructor.
Defined.

(** ** Backfill *)

Section Backfill.

Variable cfg : Config.

Lemma attempts_started_0 st : attempts_started 0 st = st.
Proof.
  destruct st. unfold attempts_started. cbn.
  rewrite Z.add_0_r, !app_nil_r. reflexivity.
Qed.

(** While entries and capacity last, each invocation starts an attempt. *)
Lemma iter_starts_attempts n : forall st,
  exited st = false ->
  all_truthy (encodingQueue st) ->
  (n <= capacity cfg st)%nat ->
  (n <= length (encodingQueue st))%nat ->
  Nat.iter n (processEncodingQueue cfg) st = attempts_started n st.
Proof.
  induction n as [|n IH]; intros st Hex Hq Hcap Hlen.
  - symmetry. apply attempts_started_0.
  - rewrite Nat.iter_succ, IH by (try assumption; lia).
    destruct (lookup_lt_is_Some_2 (encodingQueue st) n) as [x Hx]; [lia|].
    unfold processEncodingQueue, attempts_started.
    cbn [exited encodingQueue runningEncodings]. rewrite Hex.
    rewrite (drop_S _ _ _ Hx).
    assert (Hlt : (MAX_PARALLEL cfg <=? runningEncodings st + Z.of_nat n) = false).
    { apply Z.leb_gt. unfold capacity in Hcap. lia. }
    rewrite Hlt.
    assert (Hxt : Js.truthy x = true).
    { unfold all_truthy in Hq. rewrite Forall_lookup in Hq. exact (Hq n x Hx). }
    rewrite Hxt. cbn [negb].
    unfold await, call, incr, set_queue, set_running, set_suspended.
    cbn [exited encodingQueue runningEncodings suspended ws reconnectTimeout
         calls].
    rewrite (take_S_r _ _ _ Hx), !map_app, !app_assoc. cbn [map].
    f_equal. lia.
Qed.

(** A state with nothing to start is left as it is. *)
Lemma iter_nothing_to_start n st :
  DRY_RUN cfg = false ->
  encodingQueue st = [] \/ MAX_PARALLEL cfg <= runningEncodings st ->
  Nat.iter n (processEncodingQueue cfg) st = st.
Proof.
  intros Hdry H. induction n as [|n IH]; [reflexivity|].
  rewrite Nat.iter_succ, IH. unfold processEncodingQueue.
  destruct (exited st); [reflexivity|]. rewrite Hdry.
  destruct (encodingQueue st) as [|x rest]; [reflexivity|].
  destruct H as [H|H]; [discriminate H|].
  apply Z.leb_le in H. rewrite H. reflexivity.
Qed.

Lemma iter_after_exit n st :
  exited st = true -> Nat.iter n (processEncodingQueue cfg) st = st.
Proof.
  intros H. induction n as [|n IH]; [reflexivity|].
  rewrite Nat.iter_succ, IH. unfold processEncodingQueue. rewrite H.
  reflexivity.
Qed.

End Backfill.

(** X12. A backfill starts as many attempts as the free capacity and the
    queue allow, and no more: with drain-then-exit off, or with at least
    as many entries queued as there is capacity, it takes that many
    entries from the head of the queue, in order, asks for the details of
    each, and raises the counter by their number. *)
Theorem backfill_fills_free_capacity (cfg : Config) (st : Client) :
  exited st = false ->
  all_truthy (encodingQueue st) ->
  DRY_RUN cfg = false
  \/ (capacity cfg st <= length (encodingQueue st))%nat ->
  backfill cfg (runningEncodings st) st
  = attempts_started (Nat.min (capacity cfg st) (length (encodingQueue st))) st.
Proof.
  intros Hex Hq Hcase. unfold backfill. fold (capacity cfg st).
  destruct (Nat.le_gt_cases (capacity cfg st) (length (encodingQueue st)))
    as [Hle|Hgt].
  - rewrite Nat.min_l by exact Hle.
    apply iter_starts_attempts; auto.
  - destruct Hcase as [Hdry|Hle]; [|lia].
    rewrite Nat.min_r by lia.
    replace (capacity cfg st)
      with ((capacity cfg st - length (encodingQueue st))
            + length (encodingQueue st))%nat by lia.
    rewrite Nat.iter_add.
    rewrite (iter_starts_attempts cfg _ st Hex Hq) by lia.
    apply iter_nothing_to_start; [exact Hdry|]. left.
    unfold attempts_started. cbn [encodingQueue]. apply drop_all.
Qed.

Lemma backfill_fills_free_capacity_witness :
  backfill (mkConfig 3 15000 false false ["opus"] [])
           1 (set_running 1 (new_client ["a"; "b"; "c"]))
  = mkClient ["c"] 3 WsNull false
             [AwaitItemDetails "a"; AwaitItemDetails "b"] false
             [ApiGetItemDetails "a"; ApiGetItemDetails "b"].
Proof.
  apply (backfill_fills_free_capacity
           (mkConfig 3 15000 false false ["opus"] [])
           (set_running 1 (new_client ["a"; "b"; "c"]))).
  - reflexivity.
  - repeat constructor.
  - left. reflexivity.
Defined.

(** X13. With drain-then-exit on, a backfill that has more capacity than
    entries exits the process as soon as it has emptied the queue, while
    the attempts it has just started still wait for [getItemDetails]. *)
Theorem dry_run_backfill_exits_with_attempts_pending
    (cfg : Config) (st : Client) :
  exited st = false ->
  all_truthy (encodingQueue st) ->
  DRY_RUN cfg = true ->
  (length (encodingQueue st) < capacity cfg st)%nat ->
  backfill cfg (runningEncodings st) st
  = shutdown (attempts_started (length (encodingQueue st)) st)
  /\ exited (backfill cfg (runningEncodings st) st) = true
  /\ suspended (backfill cfg (runningEncodings st) st)
     = (suspended st ++ map AwaitItemDetails (encodingQueue st))%list.
Proof.
  intros Hex Hq Hdry Hlt.
  assert (Heq : backfill cfg (runningEncodings st) st
                = shutdown (attempts_started (length (encodingQueue st)) st)).
  { unfold backfill. fold (capacity cfg st).
    replace (capacity cfg st)
      with ((capacity cfg st - S (length (encodingQueue st)))
            + S (length (encodingQueue st)))%nat by lia.
    rewrite Nat.iter_add, Nat.iter_succ.
    rewrite (iter_starts_attempts cfg _ st Hex Hq) by lia.
    assert (Hstep : processEncodingQueue cfg
                      (attempts_started (length (encodingQueue st)) st)
                    = shutdown (attempts_started (length (encodingQueue st)) st)).
    { assert (HexX : exited (attempts_started (length (encodingQueue st)) st)
                     = false) by exact Hex.
      assert (HqX : encodingQueue
                      (attempts_started (length (encodingQueue st)) st) = [])
        by apply drop_all.
      unfold processEncodingQueue. rewrite HexX, HqX, Hdry. reflexivity. }
    rewrite Hstep. apply iter_after_exit.
    unfold shutdown, attempts_started.
    cbn [reconnectTimeout ws encodingQueue]. rewrite drop_all.
    destruct (reconnectTimeout st), (ws st); reflexivity. }
  rewrite Heq. split; [reflexivity|].
  destruct (shutdown_keeps (attempts_started (length (encodingQueue st)) st))
    as (_ & _ & ->).
  split.
  - unfold shutdown, attempts_started.
    cbn [reconnectTimeout ws encodingQueue]. rewrite drop_all.
    destruct (reconnectTimeout st), (ws st); reflexivity.
  - unfold attempts_started. cbn [suspended]. rewrite firstn_all. reflexivity.
Qed.

Lemma dry_run_backfill_exits_with_attempts_pending_witness :
  exited (backfill (mkConfig 6 15000 false true ["opus"] [])
                   0 (new_client ["a"; "b"])) = true
  /\ suspended (backfill (mkConfig 6 15000 false true ["opus"] [])
                         0 (new_client ["a"; "b"]))
     = [AwaitItemDetails "a"; AwaitItemDetails "b"].
Proof.
  destruct (dry_run_backfill_exits_with_attempts_pending
              (mkConfig 6 15000 false true ["opus"] [])
              (new_client ["a"; "b"])) as (_ & Hex & Hsus).
  - reflexivity.
  - repeat constructor.
  - reflexivity.
  - vm_compute. repeat constructor.
  - split; [exact Hex|exact Hsus].
Defined.

(** ** From the matcher to the request *)

(** X14. A copy action is still a request to encode: when the first
    audio file of an item is not excluded and the entry that matches it
    says copy, the attempt asks the rule engine and then requests the
    encoding of the item with the file's own codec and the decimal
    numerals of its own bit rate and channel count, both safe integers. *)
Theorem copy_rule_requests_encoding_of_input
    (cfg : Config) (itemId : string) (d : AbsItemDetails)
    (af : AudioFileMetadata) (afs : list AudioFileMetadata)
    (e : string * ConversionProfile) (st : Client) :
  safe_integer (af_bitRate af) ->
  safe_integer (af_channels af) ->
  media d = Some (mkMedia (Some (af :: afs))) ->
  is_excluded cfg (af_codec af) = false ->
  first_entry (conversionMatrix cfg) (af_codec af) (af_bitRate af)
              (af_channels af) = Some e ->
  String.eqb (Js.toLowerCase (codec (snd e))) "copy" = true ->
  after_getItemDetails cfg itemId (Ok d) st
  = await (AwaitStartEncoding itemId)
      (call (ApiStartM4bEncoding itemId (af_codec af)
               (Js.num_toString (af_bitRate af))
               (Js.num_toString (af_channels af)))
         (call (RuleFindConversion (af_codec af) (af_bitRate af)
                  (af_channels af)) st)).
Proof.
  intros _ _ Hm Hex He Hcopy. unfold after_getItemDetails.
  rewrite Hm. cbn [audioFiles]. rewrite Hex.
  rewrite findConversion_is_loop, find_loop_first_entry, He.
  unfold resolve_copy. rewrite Hcopy. reflexivity.
Qed.

Lemma copy_rule_requests_encoding_of_input_witness :
  calls (after_getItemDetails default_cfg "a" (Ok (mp3_item "a"))
           (new_client []))
  = [RuleFindConversion "mp3" 128000 2;
     ApiStartM4bEncoding "a" "mp3" "128000" "2"].
Proof.
  rewrite (copy_rule_requests_encoding_of_input default_cfg "a" (mp3_item "a")
             (mkAudioFile "mp3" 2 128000) []
             ("0|0|0|0|0", mkProfile "copy" "0" "0") (new_client []));
    [reflexivity|unfold safe_integer; simpl; lia|unfold safe_integer; simpl; lia
     |reflexivity|reflexivity|reflexivity|reflexivity].
Defined.

(** ** The initial scan *)

Lemma enqueue_items_adds items : forall queue n,
  exists new,
    enqueue_items items queue n = ((queue ++ new)%list, n + Z.of_nat (length new))
    /\ List.NoDup new
    /\ Forall (fun x => ~ In x queue /\ Js.truthy x = true) new
    /\ (forall item, In item items -> Js.truthy (libraryItem_id item) = true ->
                     In (libraryItem_id item) (queue ++ new)).
Proof.
  induction items as [|item items IH]; intros queue n.
  - exists []. rewrite app_nil_r, Z.add_0_r. repeat split; try constructor.
    intros item [].
  - cbn [enqueue_items].
    destruct (Js.truthy (libraryItem_id item)) eqn:Et; cbn [andb].
    + destruct (existsb (String.eqb (libraryItem_id item)) queue) eqn:Ein;
        cbn [negb].
      * destruct (IH queue n) as (new & -> & Hnd & Hnew & Hin).
        exists new. repeat split; auto.
        intros it [<-|Hit] Hid; [|auto].
        apply in_or_app. left. apply existsb_eqb_In, Ein.
      * destruct (IH (queue ++ [libraryItem_id item])%list (n + 1))
          as (new & -> & Hnd & Hnew & Hin).
        exists (libraryItem_id item :: new).
        rewrite <- app_assoc. cbn [app length].
        split; [f_equal; lia|].
        rewrite List.Forall_forall in Hnew.
        split; [|split].
        -- constructor; [|exact Hnd]. intros Hx.
           apply (proj1 (Hnew _ Hx)). apply in_or_app. right. simpl. auto.
        -- apply List.Forall_forall. intros x [<-|Hx].
           ++ split; [|exact Et]. intros Hq.
              apply existsb_eqb_In in Hq. congruence.
           ++ destruct (Hnew x Hx) as [Hnq Hxt]. split; [|exact Hxt].
              intros Hq. apply Hnq. apply in_or_app. auto.
        -- intros it [<-|Hit] Hid.
           ++ apply in_or_app. right. simpl. auto.
           ++ specialize (Hin it Hit Hid). rewrite <- app_assoc in Hin.
              exact Hin.
    + destruct (IH queue n) as (new & -> & Hnd & Hnew & Hin).
      exists new. repeat split; auto.
      intros it [<-|Hit] Hid; [congruence|auto].
Qed.

Lemma scan_libraries_adds getLibraryItems libraries : forall queue n,
  exists new,
    scan_libraries getLibraryItems libraries queue n
    = ((queue ++ new)%list, n + Z.of_nat (length new))
    /\ List.NoDup new
    /\ Forall (fun x => ~ In x queue /\ Js.truthy x = true) new
    /\ (forall library items item,
          In library libraries ->
          mediaType library = "book" ->
          getLibraryItems (library_id library) = Ok items ->
          In item items -> Js.truthy (libraryItem_id item) = true ->
          In (libraryItem_id item) (queue ++ new)).
Proof.
  induction libraries as [|library libraries IH]; intros queue n.
  - exists []. rewrite app_nil_r, Z.add_0_r. repeat split; try constructor.
    intros ? ? ? [].
  - cbn [scan_libraries].
    destruct (String.eqb_spec (mediaType library) "book") as [Hbook|Hbook];
      cbn [negb].
    + destruct (getLibraryItems (library_id library)) as [items|err] eqn:Eg.
      * destruct (enqueue_items_adds items queue n)
          as (new1 & -> & Hnd1 & Hnew1 & Hin1).
        destruct (IH (queue ++ new1)%list (n + Z.of_nat (length new1)))
          as (new2 & -> & Hnd2 & Hnew2 & Hin2).
        exists (new1 ++ new2)%list.
        rewrite <- app_assoc, length_app, Nat2Z.inj_add.
        split; [f_equal; lia|].
        rewrite List.Forall_forall in Hnew1, Hnew2.
        split; [|split].
        -- apply NoDup_ListNoDup. apply NoDup_app.
           split; [apply NoDup_ListNoDup, Hnd1|].
           split; [|apply NoDup_ListNoDup, Hnd2].
           intros x Hx1 Hx2. apply list_elem_of_In in Hx1, Hx2.
           apply (proj1 (Hnew2 x Hx2)). apply in_or_app. auto.
        -- apply List.Forall_forall. intros x Hx.
           apply in_app_or in Hx as [Hx|Hx]; [exact (Hnew1 x Hx)|].
           destruct (Hnew2 x Hx) as [Hnq Hxt]. split; [|exact Hxt].
           intros Hq. apply Hnq. apply in_or_app. auto.
        -- intros lib its it [<-|Hlib] Hb Hg Hit Hid.
           ++ rewrite Eg in Hg. injection Hg as <-.
              rewrite app_assoc. apply in_or_app. left.
              exact (Hin1 it Hit Hid).
           ++ rewrite app_assoc. exact (Hin2 lib its it Hlib Hb Hg Hit Hid).
      * destruct (IH queue n) as (new & -> & Hnd & Hnew & Hin).
        exists new. repeat split; auto.
        intros lib its it [<-|Hlib] Hb Hg Hit Hid; [congruence|eauto].
    + destruct (IH queue n) as (new & -> & Hnd & Hnew & Hin).
      exists new. repeat split; auto.
      intros lib its it [<-|Hlib] Hb Hg Hit Hid; [contradiction|eauto].
Qed.

(** X15. The initial scan only appends to the queue, and appends an
    identifier once: what it adds is a list without repetitions of
    non-empty identifiers that the queue did not hold, its count is the
    number of them, and so a queue without repetitions stays without.
    It starts the timer of the dispatch exactly when it added something,
    with a delay above zero, and it always leaves the flag set. *)
Theorem scan_appends_each_identifier_once
    (cfg : Config) (getLibraries : result (list Library))
    (getLibraryItems : string -> result (list LibraryItem))
    (queue : list string) :
  exists new,
    scan_queue (performInitialLibraryScan cfg getLibraries getLibraryItems queue)
    = (queue ++ new)%list
    /\ scan_enqueued
         (performInitialLibraryScan cfg getLibraries getLibraryItems queue)
       = Z.of_nat (length new)
    /\ List.NoDup new
    /\ Forall (fun x => ~ In x queue /\ Js.truthy x = true) new
    /\ (List.NoDup queue ->
        List.NoDup (scan_queue (performInitialLibraryScan cfg getLibraries
                                  getLibraryItems queue)))
    /\ (scan_timer
          (performInitialLibraryScan cfg getLibraries getLibraryItems queue)
        = None <-> new = [])
    /\ (forall delay,
          scan_timer
            (performInitialLibraryScan cfg getLibraries getLibraryItems queue)
          = Some delay -> 0 < delay)
    /\ initialScanPerformed
         (performInitialLibraryScan cfg getLibraries getLibraryItems queue)
       = true.
Proof.
  assert (Hempty : forall out,
            out = mkScanOutcome queue 0 true None ->
            exists new,
              scan_queue out = (queue ++ new)%list
              /\ scan_enqueued out = Z.of_nat (length new)
              /\ List.NoDup new
              /\ Forall (fun x => ~ In x queue /\ Js.truthy x = true) new
              /\ (List.NoDup queue -> List.NoDup (scan_queue out))
              /\ (scan_timer out = None <-> new = [])
              /\ (forall delay, scan_timer out = Some delay -> 0 < delay)
              /\ initialScanPerformed out = true).
  { intros out ->. exists []. cbn. rewrite app_nil_r.
    repeat split; auto; try constructor. discriminate. }
  unfold performInitialLibraryScan.
  destruct getLibraries as [[|library libraries]|err]; try (apply Hempty; reflexivity).
  destruct (scan_libraries_adds getLibraryItems (library :: libraries) queue 0)
    as (new & -> & Hnd & Hnew & _).
  exists new. cbn [scan_queue scan_enqueued scan_timer initialScanPerformed].
  split; [reflexivity|]. split; [lia|]. split; [exact Hnd|].
  split; [exact Hnew|]. split; [|split; [|split; [|reflexivity]]].
  - intros Hq. apply NoDup_ListNoDup, NoDup_app.
    split; [apply NoDup_ListNoDup, Hq|]. split; [|apply NoDup_ListNoDup, Hnd].
    intros x Hxq Hxn. apply list_elem_of_In in Hxq, Hxn.
    rewrite List.Forall_forall in Hnew. exact (proj1 (Hnew x Hxn) Hxq).
  - destruct new as [|x new]; cbn [length].
    + split; reflexivity.
    + replace (0 <? 0 + Z.of_nat (S (length new))) with true
        by (symmetry; apply Z.ltb_lt; lia).
      split; discriminate.
  - intros delay. destruct (0 <? 0 + Z.of_nat (length new)); [|discriminate].
    destruct (Z.ltb_spec 0 (CONVERSION_DELAY cfg)); intros [= <-]; lia.
Qed.

Lemma scan_appends_each_identifier_once_witness :
  List.NoDup
    (scan_queue
       (performInitialLibraryScan default_cfg
          (Ok [mkLibrary "books" "book"])
          (fun _ => Ok [mkLibraryItem "b1"; mkLibraryItem "b2";
                        mkLibraryItem "b2"])
          ["b1"])).
Proof.
  destruct (scan_appends_each_identifier_once default_cfg
              (Ok [mkLibrary "books" "book"])
              (fun _ => Ok [mkLibraryItem "b1"; mkLibraryItem "b2";
                            mkLibraryItem "b2"])
              ["b1"]) as (new & _ & _ & _ & _ & Hnd & _).
  apply Hnd. repeat constructor. intros [].
Defined.

(** X16. The initial scan misses nothing it was shown. For a scan that
    runs with the answers of the control plane and no other handler in
    between, as [performInitialLibraryScan] above has it: when the list
    of libraries arrives, every non-empty identifier among the items of a
    library of books whose items arrive is in the queue when the scan
    ends, whatever the other libraries answer. (With other handlers in
    between, an attempt can take an identifier out of the queue before
    the scan ends; [dispatch_is_first_in_first_out] covers that.) *)
Theorem scan_enqueues_every_item_of_book_libraries
    (cfg : Config) (libraries : list Library)
    (getLibraryItems : string -> result (list LibraryItem))
    (queue : list string) (library : Library) (items : list LibraryItem)
    (item : LibraryItem) :
  In library libraries ->
  mediaType library = "book" ->
  getLibraryItems (library_id library) = Ok items ->
  In item items ->
  Js.truthy (libraryItem_id item) = true ->
  In (libraryItem_id item)
     (scan_queue (performInitialLibraryScan cfg (Ok libraries) getLibraryItems
                    queue)).
Proof.
  intros Hlib Hbook Hget Hitem Hid. unfold performInitialLibraryScan.
  destruct libraries as [|l ls]; [destruct Hlib|].
  destruct (scan_libraries_adds getLibraryItems (l :: ls) queue 0)
    as (new & -> & _ & _ & Hin).
  cbn [scan_queue]. exact (Hin library items item Hlib Hbook Hget Hitem Hid).
Qed.

Lemma scan_enqueues_every_item_of_book_libraries_witness :
  In "b2"
     (scan_queue
        (performInitialLibraryScan default_cfg
           (Ok [mkLibrary "podcasts" "podcast"; mkLibrary "broken" "book";
                mkLibrary "books" "book"])
           (fun id => if String.eqb id "books"
                      then Ok [mkLibraryItem "b1"; mkLibraryItem EmptyString;
                               mkLibraryItem "b2"; mkLibraryItem "b1"]
                      else if String.eqb id "podcasts"
                           then Ok [mkLibraryItem "p1"]
                           else Throw (TypeError "Network Error"))
           ["b1"])).
Proof.
  apply (scan_enqueues_every_item_of_book_libraries default_cfg _ _ _
           (mkLibrary "books" "book")
           [mkLibraryItem "b1"; mkLibraryItem EmptyString; mkLibraryItem "b2";
            mkLibraryItem "b1"]
           (mkLibraryItem "b2")).
  - simpl. auto.
  - reflexivity.
  - reflexivity.
  - simpl. auto.
  - reflexivity.
Defined.

Example scan_sample :
  performInitialLibraryScan default_cfg
    (Ok [mkLibrary "podcasts" "podcast"; mkLibrary "broken" "book";
         mkLibrary "books" "book"])
    (fun id => if String.eqb id "books"
               then Ok [mkLibraryItem "b1"; mkLibraryItem EmptyString;
                        mkLibraryItem "b2"; mkLibraryItem "b1"]
               else if String.eqb id "podcasts"
                    then Ok [mkLibraryItem "p1"]
                    else Throw (TypeError "Network Error"))
    ["b1"]
  = mkScanOutcome ["b1"; "b2"] 1 true (Some 15000).
Proof. reflexivity. Qed.

(** ** Writes on the socket, and incoming frames *)

Lemma no_write_refl st : no_write_since st st.
Proof.
  split; [reflexivity|]. exists []. rewrite app_nil_r. split; [reflexivity|].
  constructor.
Qed.

Lemma no_write_trans st1 st2 st3 :
  no_write_since st1 st2 -> no_write_since st2 st3 -> no_write_since st1 st3.
Proof.
  intros [Hw1 (e1 & Hc1 & He1)] [Hw2 (e2 & Hc2 & He2)].
  split; [congruence|]. exists (e1 ++ e2)%list.
  rewrite Hc2, Hc1, <- app_assoc. split; [reflexivity|].
  apply Forall_app. auto.
Qed.

(** Steps that change neither socket nor calls, or add one call that is
    no write. *)
Lemma no_write_eq st st1 st2 :
  ws st2 = ws st1 -> calls st2 = calls st1 ->
  no_write_since st st1 -> no_write_since st st2.
Proof.
  intros Hw Hc [Hw1 (e & Hc1 & He)]. split; [congruence|].
  exists e. split; [congruence|exact He].
Qed.

Lemma no_write_then_call c st st1 :
  is_ws_write c = false ->
  no_write_since st st1 -> no_write_since st (call c st1).
Proof.
  intros Hc [Hw1 (e & Hc1 & He)]. split; [exact Hw1|].
  exists (e ++ [c])%list. cbn [call calls]. rewrite Hc1, <- app_assoc.
  split; [reflexivity|]. apply Forall_app. split; [exact He|].
  constructor; [exact Hc|constructor].
Qed.

Ltac no_write :=
  repeat first
    [ assumption
    | apply no_write_refl
    | match goal with
      | |- no_write_since ?s (call ?c ?x) =>
          apply (no_write_then_call c s x); [reflexivity|]
      | |- no_write_since ?s (await ?a ?x) =>
          apply (no_write_eq s x); [reflexivity|reflexivity|]
      | |- no_write_since ?s (set_suspended ?l ?x) =>
          apply (no_write_eq s x); [reflexivity|reflexivity|]
      | |- no_write_since ?s (set_queue ?l ?x) =>
          apply (no_write_eq s x); [reflexivity|reflexivity|]
      | |- no_write_since ?s (set_running ?l ?x) =>
          apply (no_write_eq s x); [reflexivity|reflexivity|]
      | |- no_write_since ?s (incr ?x) =>
          apply (no_write_eq s x); [reflexivity|reflexivity|]
      | |- no_write_since ?s (decr ?x) =>
          apply (no_write_eq s x); [reflexivity|reflexivity|]
      end ].

Lemma shutdown_no_write st st1 :
  ws st <> WsOpen -> no_write_since st st1 ->
  no_write_since st (shutdown st1).
Proof.
  intros Hw H. eapply no_write_trans; [exact H|].
  assert (Hw1 : ws st1 <> WsOpen) by (destruct H as [-> _]; exact Hw).
  split.
  - destruct st1 as [q r w rt sus ex cs]. simpl in Hw1. unfold shutdown.
    destruct rt, w, q; simpl; congruence.
  - exists (shutdown_calls st1). split; [apply shutdown_calls_eq|].
    unfold shutdown_calls.
    destruct (reconnectTimeout st1), (ws st1), (encodingQueue st1);
      try contradiction; repeat constructor.
Qed.

Section Writes.

Variable cfg : Config.

Lemma processEncodingQueue_no_write st st1 :
  ws st <> WsOpen -> no_write_since st st1 ->
  no_write_since st (processEncodingQueue cfg st1).
Proof.
  intros Hw H. unfold processEncodingQueue.
  destruct (exited st1); [exact H|].
  destruct (encodingQueue st1) as [|itemId rest].
  - destruct (DRY_RUN cfg); [apply shutdown_no_write; assumption|exact H].
  - destruct (MAX_PARALLEL cfg <=? runningEncodings st1); [exact H|].
    destruct (Js.truthy itemId); cbn [negb]; no_write.
Qed.

Lemma skip_no_write st st1 :
  ws st <> WsOpen -> no_write_since st st1 -> no_write_since st (skip cfg st1).
Proof.
  intros Hw H. unfold skip. apply processEncodingQueue_no_write; [exact Hw|].
  no_write.
Qed.

Lemma iter_no_write n st st1 :
  ws st <> WsOpen -> no_write_since st st1 ->
  no_write_since st (Nat.iter n (processEncodingQueue cfg) st1).
Proof.
  intros Hw H. induction n as [|n IH]; [exact H|].
  rewrite Nat.iter_succ. apply processEncodingQueue_no_write; assumption.
Qed.

Lemma after_getItemDetails_no_write itemId r st st1 :
  ws st <> WsOpen -> no_write_since st st1 ->
  no_write_since st (after_getItemDetails cfg itemId r st1).
Proof.
  intros Hw H. unfold after_getItemDetails.
  destruct r as [d|e]; [|apply skip_no_write; assumption].
  destruct (media d) as [[[[|af afs]|]]|]; cbn [audioFiles];
    try (apply skip_no_write; assumption).
  destruct (is_excluded cfg (af_codec af)); [apply skip_no_write; assumption|].
  destruct (findConversion _ _ _ _).
  - no_write.
  - apply skip_no_write; [exact Hw|]. no_write.
Qed.

Lemma after_startM4bEncoding_no_write itemId r st st1 :
  ws st <> WsOpen -> no_write_since st st1 ->
  no_write_since st (after_startM4bEncoding cfg itemId r st1).
Proof.
  intros Hw H. destruct r; [|apply skip_no_write; assumption].
  cbn [after_startM4bEncoding]. no_write.
Qed.

Lemma handleSocketIoEvent_no_write name payload st :
  ws st <> WsOpen -> no_write_since st (handleSocketIoEvent cfg name payload st).
Proof.
  intros Hw. unfold handleSocketIoEvent.
  destruct (String.eqb name "item_added").
  - destruct (Js.truthy_opt (payload_id payload)); no_write.
  - destruct (String.eqb name "task_finished"); [|no_write].
    destruct (payload_action payload) as [action|]; [|no_write].
    destruct (str_includes "encode" action); [|no_write].
    unfold backfill. apply iter_no_write; [exact Hw|].
    destruct (EMBED_METADATA cfg && Js.truthy_opt (payload_libraryItemId payload));
      no_write.
Qed.

Lemma step_no_write st ev :
  ws st <> WsOpen -> no_write_since st (step cfg st ev).
Proof.
  intros Hw. unfold step. destruct (exited st); [no_write|].
  destruct ev as [|i r|i r|i r|name payload].
  - apply processEncodingQueue_no_write; [exact Hw|no_write].
  - destruct (suspended st !! i) as [[]|]; try apply no_write_refl.
    apply after_getItemDetails_no_write; [exact Hw|no_write].
  - destruct (suspended st !! i) as [[]|]; try apply no_write_refl.
    apply after_startM4bEncoding_no_write; [exact Hw|no_write].
  - destruct (suspended st !! i) as [[]|]; try apply no_write_refl.
    destruct r; cbn [after_getTasks]; no_write.
  - apply handleSocketIoEvent_no_write, Hw.
Qed.

Lemma run_no_write evs : forall st,
  ws st <> WsOpen -> no_write_since st (run cfg st evs).
Proof.
  induction evs as [|ev evs IH]; intros st Hw; [apply no_write_refl|].
  change (run cfg st (ev :: evs)) with (run cfg (step cfg st ev) evs).
  pose proof (step_no_write st ev Hw) as Hs.
  eapply no_write_trans; [exact Hs|]. apply IH. destruct Hs as [-> _]. exact Hw.
Qed.

End Writes.

Lemma starts_with_4_not_0 messageStr :
  startsWith messageStr "42" = true ->
  String.eqb messageStr "2" = false
  /\ startsWith messageStr "0" = false
  /\ startsWith messageStr "40" = false.
Proof.
  unfold startsWith. intros H. apply prefix_split in H. rewrite H.
  set (rest := substring_from (String.length "42") messageStr).
  cbn. destruct rest; auto.
Qed.

(** X18. Only an event frame can reach the handlers: a frame that does
    not begin with "42", or whose text [JSON.parse] rejects or reads as
    something other than a non-empty array, leaves queue, counter and
    suspended attempts as they are; a frame "42" followed by a text is
    handled as the event that [JSON.parse] reads from exactly that text. *)
Theorem only_event_frames_reach_the_handlers
    (cfg : Config) (st : Client) (ABS_TOKEN : string) (ENCODE_LIBRARY : bool)
    (JSON_parse : string -> result Parsed)
    (JSON_stringify : string -> string -> string) :
  (forall messageStr,
      startsWith messageStr "42" = false
      \/ (forall name payload,
            JSON_parse (substring_from 2 messageStr) <> Ok (EventArray name payload)) ->
      let st' := fst (onMessage cfg ABS_TOKEN ENCODE_LIBRARY JSON_parse
                                JSON_stringify messageStr st) in
      encodingQueue st' = encodingQueue st
      /\ runningEncodings st' = runningEncodings st
      /\ suspended st' = suspended st)
  /\ (forall text name payload,
        JSON_parse text = Ok (EventArray name payload) ->
        onMessage cfg ABS_TOKEN ENCODE_LIBRARY JSON_parse JSON_stringify
                  ("42" ++ text) st
        = (handleSocketIoEvent cfg name payload st, [])).
Proof.
  split.
  - intros messageStr H. cbv zeta.
    unfold onMessage, sendRawSocketMessage, sendSocketIoEvent.
    destruct (String.eqb messageStr "2"); [destruct (ws st); auto|].
    destruct (startsWith messageStr "0"); [auto|].
    destruct (startsWith messageStr "40"); [destruct (ws st); auto|].
    destruct (startsWith messageStr "42"); [|auto].
    destruct H as [H|H]; [discriminate H|].
    destruct (JSON_parse _) as [[name payload|]|]; auto.
    exfalso. exact (H name payload eq_refl).
  - intros text name payload Hparse. unfold onMessage.
    assert (Hs : startsWith ("42" ++ text) "42" = true)
      by apply prefix_append.
    destruct (starts_with_4_not_0 _ Hs) as (-> & -> & ->). rewrite Hs.
    change (substring_from 2 ("42" ++ text)) with text.
    rewrite Hparse. reflexivity.
Qed.

Lemma only_event_frames_reach_the_handlers_witness :
  onMessage default_cfg "token" false
            (fun text => if String.eqb text item_added_text
                         then Ok (EventArray "item_added"
                                    (mkPayload (Some "a") None None))
                         else Throw (TypeError "Unexpected token"))
            (fun _ _ => EmptyString) ("42" ++ item_added_text) (new_client [])
  = (mkClient ["a"] 0 WsNull false [] false [TimerDispatch 15000], []).
Proof.
  rewrite (proj2 (only_event_frames_reach_the_handlers default_cfg
                    (new_client []) "token" false _ (fun _ _ => EmptyString))
             item_added_text "item_added" (mkPayload (Some "a") None None)
             eq_refl).
  reflexivity.
Defined.

(** ** Every turn of the client *)

Lemma fresh_ids_ext ids : forall s1 s2,
  (forall x, existsb (String.eqb x) s1 = existsb (String.eqb x) s2) ->
  fresh_ids s1 ids = fresh_ids s2 ids.
Proof.
  induction ids as [|id ids IH]; intros s1 s2 H; [reflexivity|].
  cbn [fresh_ids]. rewrite (H id).
  assert (H' : forall x, existsb (String.eqb x) (id :: s1)
                         = existsb (String.eqb x) (id :: s2)).
  { intros x. cbn [existsb]. rewrite (H x). reflexivity. }
  rewrite (IH _ _ H'), (IH _ _ H). reflexivity.
Qed.

Lemma enqueue_items_fresh items : forall queue n,
  fst (enqueue_items items queue n)
  = (queue ++ fresh_ids queue (map libraryItem_id items))%list.
Proof.
  induction items as [|item items IH]; intros queue n.
  - cbn. rewrite app_nil_r. reflexivity.
  - cbn [enqueue_items map fresh_ids].
    destruct (Js.truthy (libraryItem_id item)
              && negb (existsb (String.eqb (libraryItem_id item)) queue)).
    + rewrite IH, <- app_assoc. cbn [app]. do 2 f_equal.
      apply fresh_ids_ext. intros x. rewrite existsb_app. cbn [existsb].
      rewrite orb_false_r. apply orb_comm.
    + apply IH.
Qed.

Lemma fresh_ids_truthy ids : forall seen,
  all_truthy (fresh_ids seen ids).
Proof.
  induction ids as [|id ids IH]; intros seen; [constructor|].
  cbn [fresh_ids]. destruct (Js.truthy id) eqn:Et; cbn [andb]; [|apply IH].
  destruct (negb _); [|apply IH]. constructor; [exact Et|apply IH].
Qed.

Section TurnFacts.

Variable cfg : Config.
Variable ABS_TOKEN : string.
Variable ENCODE_LIBRARY : bool.
Variable JSON_parse : string -> result Parsed.
Variable JSON_stringify : string -> string -> string.

Local Notation turn' := (turn cfg ABS_TOKEN ENCODE_LIBRARY JSON_parse JSON_stringify).
Local Notation run_turns' :=
  (run_turns cfg ABS_TOKEN ENCODE_LIBRARY JSON_parse JSON_stringify).
Local Notation onMessage' :=
  (onMessage cfg ABS_TOKEN ENCODE_LIBRARY JSON_parse JSON_stringify).

(** A frame is handled as the event it carries, and a frame that carries
    none changes at most the calls, by a frame sent on an open socket. *)
Lemma onMessage_frame_event messageStr st :
  match frame_event JSON_parse messageStr with
  | Some (eventName, payload) =>
      fst (onMessage' messageStr st) = handleSocketIoEvent cfg eventName payload st
  | None =>
      fst (onMessage' messageStr st) = st
      \/ exists msg, ws st = WsOpen
                     /\ fst (onMessage' messageStr st) = call (WsSend msg) st
  end.
Proof.
  unfold frame_event, onMessage.
  destruct (startsWith messageStr "42") eqn:E42.
  - destruct (starts_with_4_not_0 _ E42) as (-> & -> & ->).
    destruct (JSON_parse _) as [[name payload|]|]; auto.
  - unfold sendRawSocketMessage, sendSocketIoEvent.
    destruct (String.eqb messageStr "2").
    { destruct (ws st); cbn [fst]; eauto. }
    destruct (startsWith messageStr "0"); [auto|].
    destruct (startsWith messageStr "40"); [|auto].
    destruct (ws st); cbn [fst]; eauto.
Qed.

Lemma turn_served st t :
  exited st = false ->
  all_truthy (encodingQueue st) ->
  served (turn' st t)
  = (served st ++ entering JSON_parse st t)%list
  /\ all_truthy (encodingQueue (turn' st t)).
Proof.
  intros Hex Hq. unfold turn. rewrite Hex.
  destruct t as [ev|items| |messageStr| | | | | | |]; cbn [entering];
    rewrite ?app_nil_r.
  - apply step_served; assumption.
  - rewrite enqueue_items_fresh. unfold served. cbn.
    split; [apply app_assoc|].
    apply Forall_app. split; [exact Hq|apply fresh_ids_truthy].
  - unfold backfill. apply iter_processEncodingQueue_served, Hq.
  - pose proof (onMessage_frame_event messageStr st) as H.
    destruct (frame_event JSON_parse messageStr) as [[name payload]|].
    + rewrite H.
      pose proof (step_served cfg st (SocketIoEvent name payload) Hex Hq) as Hs.
      unfold step in Hs. rewrite Hex in Hs. exact Hs.
    + rewrite app_nil_r. destruct H as [->|(msg & _ & ->)]; [auto|].
      unfold served. cbn. rewrite fetched_app. cbn. rewrite app_nil_r. auto.
  - unfold connect, served. destruct (reconnectTimeout st); cbn;
      rewrite ?fetched_app; cbn; rewrite ?app_nil_r; auto.
  - unfold onOpen. destruct (ws st); auto.
  - unfold sendRawSocketMessage, served. destruct (ws st); cbn;
      rewrite ?fetched_app; cbn; rewrite ?app_nil_r; auto.
  - unfold onClose. cbn. destruct (reconnectTimeout st); auto.
  - unfold on_signal, served. rewrite fetched_shutdown.
    destruct (shutdown_keeps st) as (-> & _). auto.
  - unfold on_signal_timer, served. rewrite Hex. cbn.
    rewrite fetched_app. cbn. rewrite app_nil_r. auto.
  - auto.
Qed.

Lemma run_turns_served ts : forall st,
  all_truthy (encodingQueue st) ->
  exited (run_turns' st ts) = false ->
  served (run_turns' st ts)
  = (served st ++ entered cfg ABS_TOKEN ENCODE_LIBRARY JSON_parse JSON_stringify
                          st ts)%list.
Proof.
  induction ts as [|t ts IH]; intros st Hq Hex.
  - cbn. rewrite app_nil_r. reflexivity.
  - assert (Hst : exited st = false).
    { destruct (exited st) eqn:E; [|reflexivity].
      rewrite (run_turns_exited cfg ABS_TOKEN ENCODE_LIBRARY JSON_parse
                 JSON_stringify _ _ E) in Hex.
      congruence. }
    destruct (turn_served st t Hst Hq) as [Hs Hq'].
    change (run_turns' st (t :: ts)) with (run_turns' (turn' st t) ts) in *.
    rewrite (IH _ Hq' Hex), Hs, <- app_assoc. reflexivity.
Qed.

Lemma onMessage_no_write messageStr st :
  ws st <> WsOpen -> no_write_since st (fst (onMessage' messageStr st)).
Proof.
  intros Hw. unfold onMessage, sendRawSocketMessage, sendSocketIoEvent.
  destruct (String.eqb messageStr "2").
  { destruct (ws st); [apply no_write_refl|contradiction|apply no_write_refl]. }
  destruct (startsWith messageStr "0"); [apply no_write_refl|].
  destruct (startsWith messageStr "40").
  { destruct (ws st); [apply no_write_refl|contradiction|apply no_write_refl]. }
  destruct (startsWith messageStr "42"); [|apply no_write_refl].
  destruct (JSON_parse _) as [[name payload|]|]; try apply no_write_refl.
  apply handleSocketIoEvent_no_write, Hw.
Qed.

Lemma no_write_calls st st' :
  no_write_since st st' ->
  exists extra,
    calls st' = (calls st ++ extra)%list
    /\ Forall (fun c => is_ws_write c = false) extra.
Proof. intros [_ H]. exact H. Qed.

Lemma turn_no_write st t :
  ws st <> WsOpen ->
  exists extra,
    calls (turn' st t) = (calls st ++ extra)%list
    /\ Forall (fun c => is_ws_write c = false) extra.
Proof.
  intros Hw. unfold turn.
  destruct (exited st) eqn:Hex; [apply no_write_calls, no_write_refl|].
  destruct t as [ev|items| |messageStr| | | | | | |].
  - apply no_write_calls, step_no_write, Hw.
  - apply no_write_calls. no_write.
  - apply no_write_calls. unfold backfill.
    apply iter_no_write; [exact Hw|apply no_write_refl].
  - apply no_write_calls, onMessage_no_write, Hw.
  - unfold connect. destruct (reconnectTimeout st); cbn.
    + exists [ClearReconnectTimer]. split; [reflexivity|repeat constructor].
    + exists []. rewrite app_nil_r. split; [reflexivity|constructor].
  - exists []. rewrite app_nil_r. split; [|constructor].
    unfold onOpen. destruct (ws st); reflexivity.
  - exists []. rewrite app_nil_r. split; [|constructor].
    unfold sendRawSocketMessage. destruct (ws st); [reflexivity|contradiction|reflexivity].
  - exists []. rewrite app_nil_r. split; [|constructor].
    unfold onClose. cbn. destruct (reconnectTimeout st); reflexivity.
  - apply no_write_calls. unfold on_signal.
    apply shutdown_no_write; [exact Hw|apply no_write_refl].
  - unfold on_signal_timer. rewrite Hex. exists [ProcessExit 0].
    split; [reflexivity|repeat constructor].
  - apply no_write_calls, no_write_refl.
Qed.

Lemma no_write_ws st st' :
  ws st <> WsOpen -> no_write_since st st' -> ws st' <> WsOpen.
Proof. intros Hw [-> _]. exact Hw. Qed.

Lemma turn_keeps_closed st t :
  ws st <> WsOpen -> t <> OpenTurn -> ws (turn' st t) <> WsOpen.
Proof.
  intros Hw Ht. unfold turn. destruct (exited st) eqn:Hex; [exact Hw|].
  destruct t as [ev|items| |messageStr| | | | | | |].
  - apply (no_write_ws st); [exact Hw|apply step_no_write, Hw].
  - exact Hw.
  - apply (no_write_ws st); [exact Hw|]. unfold backfill.
    apply iter_no_write; [exact Hw|apply no_write_refl].
  - apply (no_write_ws st); [exact Hw|apply onMessage_no_write, Hw].
  - unfold connect. destruct (reconnectTimeout st); cbn; discriminate.
  - contradiction.
  - unfold sendRawSocketMessage. destruct (ws st) eqn:Ews;
      [rewrite Ews; discriminate|contradiction|rewrite Ews; discriminate].
  - unfold onClose. cbn. destruct (reconnectTimeout st); cbn; discriminate.
  - apply (no_write_ws st); [exact Hw|]. unfold on_signal.
    apply shutdown_no_write; [exact Hw|apply no_write_refl].
  - unfold on_signal_timer. rewrite Hex. exact Hw.
  - exact Hw.
Qed.

Lemma run_turns_no_write ts : forall st,
  ws st <> WsOpen -> ~ In OpenTurn ts ->
  ws (run_turns' st ts) <> WsOpen
  /\ exists extra,
       calls (run_turns' st ts) = (calls st ++ extra)%list
       /\ Forall (fun c => is_ws_write c = false) extra.
Proof.
  induction ts as [|t ts IH]; intros st Hw Hts.
  - split; [exact Hw|]. exists []. rewrite app_nil_r.
    split; [reflexivity|constructor].
  - change (run_turns' st (t :: ts)) with (run_turns' (turn' st t) ts).
    assert (Ht : t <> OpenTurn) by (intros ->; apply Hts; left; reflexivity).
    assert (Hts' : ~ In OpenTurn ts) by (intros H; apply Hts; right; exact H).
    destruct (turn_no_write st t Hw) as (e1 & Hc1 & He1).
    destruct (IH _ (turn_keeps_closed st t Hw Ht) Hts') as (Hw' & e2 & Hc2 & He2).
    split; [exact Hw'|]. exists (e1 ++ e2)%list.
    rewrite Hc2, Hc1, <- app_assoc. split; [reflexivity|].
    apply Forall_app. auto.
Qed.

End TurnFacts.

(** X10. Dispatch serves the queue in order and loses nothing, whatever
    the scheduler runs: a dispatcher turn, the scan resuming with the
    items of a library, the timer of the scan, an incoming frame, a turn
    of the connection, a signal. In a process that has not exited, the
    identifiers for which [getItemDetails] was called, in the order of
    the calls, followed by the identifiers still queued, are the initial
    queue followed by the identifiers that the turns brought, in the
    order of the turns: the one of each [item_added] event and, for each
    resumption of the scan, the non-empty identifiers of the items that
    the queue did not hold, each once. *)
Theorem dispatch_is_first_in_first_out
    (cfg : Config) (ABS_TOKEN : string) (ENCODE_LIBRARY : bool)
    (JSON_parse : string -> result Parsed)
    (JSON_stringify : string -> string -> string)
    (q : list string) (ts : list Turn) :
  all_truthy q ->
  exited (run_turns cfg ABS_TOKEN ENCODE_LIBRARY JSON_parse JSON_stringify
                    (new_client q) ts) = false ->
  (fetched (calls (run_turns cfg ABS_TOKEN ENCODE_LIBRARY JSON_parse
                             JSON_stringify (new_client q) ts))
     ++ encodingQueue (run_turns cfg ABS_TOKEN ENCODE_LIBRARY JSON_parse
                                 JSON_stringify (new_client q) ts))%list
  = (q ++ entered cfg ABS_TOKEN ENCODE_LIBRARY JSON_parse JSON_stringify
                  (new_client q) ts)%list.
Proof.
  intros Hq Hex.
  apply (run_turns_served cfg ABS_TOKEN ENCODE_LIBRARY JSON_parse JSON_stringify
           ts (new_client q) Hq Hex).
Qed.

Lemma dispatch_is_first_in_first_out_witness :
  (fetched (calls (run_turns default_cfg "token" true
                     (fun _ => Throw (TypeError "Unexpected token"))
                     (fun _ _ => EmptyString) (new_client ["a"; "b"])
                     [EventTurn DispatchTimer;
                      ScanItemsTurn [mkLibraryItem "b"; mkLibraryItem "d";
                                     mkLibraryItem "d"];
                      EventTurn (SocketIoEvent "item_added"
                                   (mkPayload (Some "c") None None));
                      EventTurn (ItemDetailsSettled 0
                                   (Throw (TypeError "Network Error")));
                      ScanTimerTurn; FrameTurn "2"; CloseTurn; ConnectTurn]))
     ++ encodingQueue (run_turns default_cfg "token" true
                         (fun _ => Throw (TypeError "Unexpected token"))
                         (fun _ _ => EmptyString) (new_client ["a"; "b"])
                         [EventTurn DispatchTimer;
                          ScanItemsTurn [mkLibraryItem "b"; mkLibraryItem "d";
                                         mkLibraryItem "d"];
                          EventTurn (SocketIoEvent "item_added"
                                       (mkPayload (Some "c") None None));
                          EventTurn (ItemDetailsSettled 0
                                       (Throw (TypeError "Network Error")));
                          ScanTimerTurn; FrameTurn "2"; CloseTurn;
                          ConnectTurn]))%list
  = ["a"; "b"; "d"; "c"].
Proof.
  rewrite (dispatch_is_first_in_first_out default_cfg "token" true
             (fun _ => Throw (TypeError "Unexpected token"))
             (fun _ _ => EmptyString) ["a"; "b"]).
  - reflexivity.
  - repeat constructor.
  - reflexivity.
Defined.

(** X17. Nothing is written on a socket that is not open. A turn that
    begins while the socket is absent or not open sends no frame and does
    not call close, whichever turn it is: a dispatcher turn, a turn of
    the scan, an incoming frame, [connect], the open event, the timer of
    the namespace connect, the close event, a signal or its timer. And
    the socket opens by its open event only: over any sequence of turns
    without one the socket stays not open and nothing is written. *)
Theorem closed_socket_is_never_written
    (cfg : Config) (ABS_TOKEN : string) (ENCODE_LIBRARY : bool)
    (JSON_parse : string -> result Parsed)
    (JSON_stringify : string -> string -> string) (st : Client) :
  ws st <> WsOpen ->
  (forall t,
      exists extra,
        calls (turn cfg ABS_TOKEN ENCODE_LIBRARY JSON_parse JSON_stringify st t)
        = (calls st ++ extra)%list
        /\ Forall (fun c => is_ws_write c = false) extra)
  /\ (forall ts,
        ~ In OpenTurn ts ->
        ws (run_turns cfg ABS_TOKEN ENCODE_LIBRARY JSON_parse JSON_stringify st ts)
        <> WsOpen
        /\ exists extra,
             calls (run_turns cfg ABS_TOKEN ENCODE_LIBRARY JSON_parse
                              JSON_stringify st ts)
             = (calls st ++ extra)%list
             /\ Forall (fun c => is_ws_write c = false) extra).
Proof.
  intros Hw. split.
  - intros t. apply turn_no_write, Hw.
  - intros ts Hts. apply run_turns_no_write; assumption.
Qed.

Lemma closed_socket_is_never_written_witness :
  exists extra,
    calls (run_turns (mkConfig 2 15000 false true ["opus"] []) "token" false
             (fun _ => Ok NotAnEventArray) (fun _ _ => EmptyString)
             (mkClient ["a"] 0 WsNotOpen true [] false [])
             [FrameTurn "2"; FrameTurn "40"; NamespaceConnectTurn;
              EventTurn DispatchTimer; CloseTurn; ConnectTurn;
              EventTurn (ItemDetailsSettled 0 (Ok (opus_item "a")))])
    = (calls (mkClient ["a"] 0 WsNotOpen true [] false []) ++ extra)%list
    /\ Forall (fun c => is_ws_write c = false) extra.
Proof.
  apply (closed_socket_is_never_written
           (mkConfig 2 15000 false true ["opus"] []) "token" false
           (fun _ => Ok NotAnEventArray) (fun _ _ => EmptyString)
           (mkClient ["a"] 0 WsNotOpen true [] false [])).
  - discriminate.
  - intros H. simpl in H.
    repeat (destruct H as [H|H]; [discriminate H|]). exact H.
Defined.
